(** * FFTCGSim card-data scripts: normalisation, image resolution, merge

    A shallow embedding of the Python scripts that fetch trading-card
    records, reshape them into the local card schema, derive image URLs
    and merge the results into the persisted JSON files.

    - [Py]: the values that [json] produces and the operations of the
      language and of its library that the scripts use, exceptions
      included.
    - [Canon]: the card dictionary that the normalisers build.
    - [Manager], [FetchMissing], [FetchData], [Extract]: the normalisers
      of fftcg_database_manager.py, fetch_missing_sets.py,
      fetch_fftcg_data.py and extract_all_cards.py.
    - [ManagerImages], [UpdateImages], [GenerateMapping]: the image URL
      resolvers of fftcg_database_manager.py, update_image_mapping.py
      and generate_materia_hunter_mapping.py.
    - [Store]: the two persisted files, the merge of the cards and the
      update of the image mapping, shared by the scripts that have them.
    - [ManagerMain], [FetchMissingMain], [UpdateImagesMain]: the runs.

    A Python [str] is a Rocq [string] holding its UTF-8 bytes, so that
    equality and the lexicographic order of strings are those of Python;
    [upper], [lower], [isdigit] and the classes of the regular
    expressions act on the ASCII range, where card codes, costs and
    rarities live.  JSON numbers are integers.  Exceptions are values of
    an error monad. *)

From Stdlib Require Import ZArith Ascii String List Bool Lia DecimalString.
From stdpp Require Import base list strings gmap sorting.

Local Open Scope Z_scope.

(** ** Python values and the operations the scripts use *)

Module Py.

Inductive exn :=
| KeyError | IndexError | TypeError | ValueError | AttributeError
| JSONDecodeError | FileNotFoundError.

Inductive result (A : Type) :=
| Ok (a : A)
| Raise (e : exn).
Arguments Ok {A} a.
Arguments Raise {A} e.

Definition bind {A B} (r : result A) (k : A -> result B) : result B :=
  match r with
  | Ok a => k a
  | Raise e => Raise e
  end.

Notation "x <- r ;; k" := (bind r (fun x => k))
  (at level 100, r at next level, right associativity).

(** [try: r except: d] *)
Definition try_except {A} (r : result A) (d : A) : A :=
  match r with
  | Ok a => a
  | Raise _ => d
  end.

Definition raises {A} (r : result A) : Prop :=
  match r with
  | Ok _ => False
  | Raise _ => True
  end.

#[local] Set Warnings "-register-all".

Inductive value :=
| VNone
| VBool (b : bool)
| VInt (z : Z)
| VStr (s : string)
| VList (l : list value)
| VDict (d : list (string * value)).

Definition dict := list (string * value).

(** [d.get(k)] with its optional default, [k in d] and [d[k]] on a
    dictionary with string keys. *)
Fixpoint find_key (k : string) (d : dict) : option value :=
  match d with
  | [] => None
  | (k', v) :: d' => if String.eqb k k' then Some v else find_key k d'
  end.

Definition get (d : dict) (k : string) (default : value) : value :=
  match find_key k d with
  | Some v => v
  | None => default
  end.

Definition has_key (d : dict) (k : string) : bool :=
  match find_key k d with
  | Some _ => true
  | None => false
  end.

Definition getitem (d : dict) (k : string) : result value :=
  match find_key k d with
  | Some v => Ok v
  | None => Raise KeyError
  end.

(** Truth value of an object. *)
Definition truthy (v : value) : bool :=
  match v with
  | VNone => false
  | VBool b => b
  | VInt z => negb (z =? 0)
  | VStr s => negb (String.eqb s "")
  | VList l => match l with [] => false | _ => true end
  | VDict d => match d with [] => false | _ => true end
  end.

(** *** Characters and strings *)

Definition code (c : ascii) : N := N_of_ascii c.

Definition is_digit (c : ascii) : bool := ((48 <=? code c) && (code c <=? 57))%N.
Definition is_upper (c : ascii) : bool := ((65 <=? code c) && (code c <=? 90))%N.
Definition is_lower (c : ascii) : bool := ((97 <=? code c) && (code c <=? 122))%N.

Definition to_upper (c : ascii) : ascii :=
  if is_lower c then ascii_of_N (code c - 32) else c.
Definition to_lower (c : ascii) : ascii :=
  if is_upper c then ascii_of_N (code c + 32) else c.

Fixpoint smap (f : ascii -> ascii) (s : string) : string :=
  match s with
  | EmptyString => EmptyString
  | String c s' => String (f c) (smap f s')
  end.

Definition upper : string -> string := smap to_upper.
Definition lower : string -> string := smap to_lower.

Fixpoint sall (p : ascii -> bool) (s : string) : bool :=
  match s with
  | EmptyString => true
  | String c s' => p c && sall p s'
  end.

(** [s.isdigit()]: false on the empty string. *)
Definition isdigit (s : string) : bool :=
  negb (String.eqb s "") && sall is_digit s.

Definition digit_val (c : ascii) : Z := Z.of_N (code c - 48).

(** Value of a string of digits, most significant first. *)
Fixpoint digits_val (acc : Z) (s : string) : Z :=
  match s with
  | EmptyString => acc
  | String c s' => digits_val (10 * acc + digit_val c) s'
  end.

(** *** [int(...)] *)

(** White space that [int] skips at both ends of a string. *)
Definition is_space (c : ascii) : bool :=
  (((9 <=? code c) && (code c <=? 13)) || ((32 <=? code c) && (code c <=? 32)))%N.

Fixpoint lstrip (s : string) : string :=
  match s with
  | EmptyString => EmptyString
  | String c s' => if is_space c then lstrip s' else s
  end.

Fixpoint rstrip (s : string) : string :=
  match s with
  | EmptyString => EmptyString
  | String c s' =>
      let r := rstrip s' in
      if String.eqb r "" && is_space c then EmptyString else String c r
  end.

Definition strip (s : string) : string := rstrip (lstrip s).

(** Decimal digits, single underscores allowed between two digits.
    [after_digit] tells whether the previous character was a digit. *)
Fixpoint int_digits (after_digit : bool) (acc : Z) (s : string) : option Z :=
  match s with
  | EmptyString => if after_digit then Some acc else None
  | String c s' =>
      if is_digit c then int_digits true (10 * acc + digit_val c) s'
      else if Ascii.eqb c "_" && after_digit then int_digits false acc s'
      else None
  end.

Definition int_of_string (s : string) : result Z :=
  let parsed :=
    match strip s with
    | String "-" r => Z.opp <$> int_digits false 0 r
    | String "+" r => int_digits false 0 r
    | t => int_digits false 0 t
    end in
  match parsed with
  | Some z => Ok z
  | None => Raise ValueError
  end.

Definition int (v : value) : result Z :=
  match v with
  | VInt z => Ok z
  | VBool b => Ok (if b then 1 else 0)
  | VStr s => int_of_string s
  | VNone | VList _ | VDict _ => Raise TypeError
  end.

(** *** [str(...)], [repr(...)] and formatting *)

Definition dec (z : Z) : string := NilZero.string_of_int (Z.to_int z).

(** [f"{z:02d}"] *)
Definition format_02d (z : Z) : string :=
  if z <? 0 then dec z
  else if (String.length (dec z) <? 2)%nat then String "0" (dec z) else dec z.

Definition hex_digit (n : N) : ascii :=
  if (n <? 10)%N then ascii_of_N (48 + n) else ascii_of_N (87 + n).

Fixpoint scontains (c : ascii) (s : string) : bool :=
  match s with
  | EmptyString => false
  | String c' s' => Ascii.eqb c c' || scontains c s'
  end.

Definition repr_char (quote c : ascii) : string :=
  if Ascii.eqb c quote || Ascii.eqb c "\" then String "\" (String c EmptyString)
  else if Ascii.eqb c "010" then "\n"
  else if Ascii.eqb c "013" then "\r"
  else if Ascii.eqb c "009" then "\t"
  else if (code c <? 32)%N || (code c =? 127)%N then
    String "\" (String "x" (String (hex_digit (code c / 16))
      (String (hex_digit (code c mod 16)) EmptyString)))
  else String c EmptyString.

Fixpoint repr_chars (quote : ascii) (s : string) : string :=
  match s with
  | EmptyString => EmptyString
  | String c s' => repr_char quote c +:+ repr_chars quote s'
  end.

(** [repr] of a string: single quotes, unless the string has a single
    quote and no double quote. *)
Definition squote : ascii := "'"%char.
Definition dquote : ascii := ascii_of_N 34.

Definition repr_str (s : string) : string :=
  let quote : ascii :=
    if scontains squote s && negb (scontains dquote s) then dquote else squote in
  String quote (repr_chars quote s +:+ String quote EmptyString).

Fixpoint join (sep : string) (l : list string) : string :=
  match l with
  | [] => EmptyString
  | [s] => s
  | s :: l' => s +:+ sep +:+ join sep l'
  end.

Fixpoint repr (v : value) : string :=
  match v with
  | VNone => "None"
  | VBool true => "True"
  | VBool false => "False"
  | VInt z => dec z
  | VStr s => repr_str s
  | VList l => "[" +:+ join ", " (map repr l) +:+ "]"
  | VDict d =>
      "{" +:+ join ", " (map (fun '(k, v') => repr_str k +:+ ": " +:+ repr v') d) +:+ "}"
  end.

Definition str (v : value) : string :=
  match v with
  | VStr s => s
  | _ => repr v
  end.

(** *** Sequences: [len], [x[0]], [x[k]] and [k in x] *)

(** A byte that continues a UTF-8 sequence. *)
Definition is_continuation (c : ascii) : bool :=
  ((128 <=? code c) && (code c <=? 191))%N.

Fixpoint take_continuation (s : string) : string :=
  match s with
  | EmptyString => EmptyString
  | String c s' => if is_continuation c then String c (take_continuation s') else EmptyString
  end.

(** Number of characters of a string. *)
Fixpoint slen (s : string) : nat :=
  match s with
  | EmptyString => O
  | String c s' => if is_continuation c then slen s' else S (slen s')
  end.

Definition len (v : value) : result nat :=
  match v with
  | VStr s => Ok (slen s)
  | VList l => Ok (length l)
  | VDict d => Ok (length d)
  | VNone | VBool _ | VInt _ => Raise TypeError
  end.

(** [v[0]] *)
Definition first (v : value) : result value :=
  match v with
  | VList [] => Raise IndexError
  | VList (x :: _) => Ok x
  | VStr EmptyString => Raise IndexError
  | VStr (String c s) => Ok (VStr (String c (take_continuation s)))
  | VDict _ => Raise KeyError
  | VNone | VBool _ | VInt _ => Raise TypeError
  end.

(** [v[k]] for a string [k] *)
Definition item (v : value) (k : string) : result value :=
  match v with
  | VDict d => getitem d k
  | _ => Raise TypeError
  end.

Fixpoint is_prefix (p s : string) : bool :=
  match p, s with
  | EmptyString, _ => true
  | String a p', String b s' => Ascii.eqb a b && is_prefix p' s'
  | String _ _, EmptyString => false
  end.

Fixpoint is_substring (p s : string) : bool :=
  is_prefix p s ||
  match s with
  | EmptyString => false
  | String _ s' => is_substring p s'
  end.

Definition is_str (k : string) (v : value) : bool :=
  match v with
  | VStr s => String.eqb s k
  | _ => false
  end.

(** [k in v] for a string [k] *)
Definition contains (v : value) (k : string) : result bool :=
  match v with
  | VDict d => Ok (has_key d k)
  | VList l => Ok (existsb (is_str k) l)
  | VStr s => Ok (is_substring k s)
  | VNone | VBool _ | VInt _ => Raise TypeError
  end.

End Py.

Import Py.

(** ** The canonical card record

    The dictionary every normaliser builds, one field per key.  A field
    copied from the raw record keeps whatever value the record holds. *)

Module Canon.

Record card := {
  id : value;
  name : value;
  element : string;
  type : string;
  cost : Z;
  power : option Z;
  job : value;
  category : value;
  rarity : value;
  text : value;
  set : string;
  cardNumber : value;
  hasRealImage : bool;
  source : string;
  image : option value   (* [None]: the key is not set *)
}.

Definition with_image (c : card) (v : value) : card :=
  {| id := id c; name := name c; element := element c; type := type c;
     cost := cost c; power := power c; job := job c; category := category c;
     rarity := rarity c; text := text c; set := set c;
     cardNumber := cardNumber c; hasRealImage := hasRealImage c;
     source := source c; image := Some v |}.

End Canon.

(** Lookup in a table of strings, [mapping.get(k, default)]. *)
Fixpoint assoc (k : string) (t : list (string * string)) : option string :=
  match t with
  | [] => None
  | (k', v) :: t' => if String.eqb k k' then Some v else assoc k t'
  end.

Definition element_table : list (string * string) :=
  [("火", "fire"); ("氷", "ice"); ("風", "wind"); ("雷", "lightning");
   ("水", "water"); ("土", "earth"); ("光", "light"); ("闇", "dark")].

Definition type_table : list (string * string) :=
  [("Forward", "forward"); ("Backup", "backup");
   ("Summon", "summon"); ("Monster", "monster")].

(** [mapping.get(x, x.lower())]: the default is evaluated first, so a
    value that is not a string raises. *)
Definition get_or_lower (t : list (string * string)) (x : value) : result string :=
  match x with
  | VStr s => Ok (default (lower s) (assoc s t))
  | _ => Raise AttributeError
  end.

(** [for x in v] *)
Fixpoint chars_aux (s : string) : string * list string :=
  match s with
  | EmptyString => (EmptyString, [])
  | String c s' =>
      let '(pending, l) := chars_aux s' in
      if is_continuation c then (String c pending, l)
      else (EmptyString, String c pending :: l)
  end.

Definition chars (s : string) : list string :=
  let '(pending, l) := chars_aux s in
  if String.eqb pending "" then l else pending :: l.

Definition iter (v : value) : result (list value) :=
  match v with
  | VList l => Ok l
  | VStr s => Ok (VStr <$> chars s)
  | VDict d => Ok ((fun kv => VStr (fst kv)) <$> d)
  | VNone | VBool _ | VInt _ => Raise TypeError
  end.

(** ** fftcg_database_manager.py: normalisation *)

Module Manager.

Definition element_mapping (element_jp : value) : result string :=
  if negb (truthy element_jp) then Ok "unknown"
  else get_or_lower element_table element_jp.

Definition type_mapping (type_en : value) : result string :=
  if negb (truthy type_en) then Ok "unknown"
  else get_or_lower type_table type_en.

Definition safe_int (v : value) (default : Z) : Z :=
  try_except
    (if truthy v && isdigit (str v) then int v else Ok default)
    default.

(** The test [card_data.get("element") and len(card_data["element"]) > 0]
    and the assignment under it. *)
Definition card_element (card_data : dict) : result string :=
  if truthy (get card_data "element" VNone) then
    e <- getitem card_data "element" ;;
    n <- len e ;;
    if (0 <? n)%nat then
      e <- getitem card_data "element" ;;
      x <- first e ;;
      element_mapping x
    else Ok "unknown"
  else Ok "unknown".

(** The test ["images" in card_data and "full" in card_data["images"]
    and card_data["images"]["full"]]. *)
Definition has_full_image (card_data : dict) : result bool :=
  if has_key card_data "images" then
    images <- getitem card_data "images" ;;
    b <- contains images "full" ;;
    if b then
      images <- getitem card_data "images" ;;
      full <- item images "full" ;;
      Ok (truthy full)
    else Ok false
  else Ok false.

Definition full_image (card_data : dict) : result value :=
  images <- getitem card_data "images" ;;
  full <- item images "full" ;;
  first full.

(** The body of the [try] inside the loop of [fetch_set_data], with the
    rarity expression as a parameter: it is the one line in which the
    copy in fetch_missing_sets.py differs. *)
Definition build_card (rarity_of : dict -> string)
    (card_data : dict) (set_name : string) : result Canon.card :=
  element <- card_element card_data ;;
  type <- type_mapping (get card_data "type_en" (VStr "")) ;;
  let card :=
    {| Canon.id := get card_data "code" (VStr "unknown");
       Canon.name := get card_data "name_en" (VStr "");
       Canon.element := element;
       Canon.type := type;
       Canon.cost := safe_int (get card_data "cost" VNone) 0;
       Canon.power :=
         if truthy (get card_data "power" VNone)
         then Some (safe_int (get card_data "power" VNone) 0) else None;
       Canon.job := get card_data "job_en" (VStr "");
       Canon.category := get card_data "category_1" (VStr "");
       Canon.rarity := VStr (rarity_of card_data);
       Canon.text := get card_data "text_en" (VStr "");
       Canon.set := set_name;
       Canon.cardNumber := get card_data "code" (VStr "unknown");
       Canon.hasRealImage := true;
       Canon.source := "square-api";
       Canon.image := None |} in
  b <- has_full_image card_data ;;
  if b then
    img <- full_image card_data ;;
    Ok (Canon.with_image card img)
  else Ok card.

(** [str(card_data.get("rarity", "C")).upper()] *)
Definition card_rarity (card_data : dict) : string :=
  upper (str (get card_data "rarity" (VStr "C"))).

Definition normalize : dict -> string -> result Canon.card :=
  build_card card_rarity.

(** One turn of the loop over [data["cards"]]: the record is appended,
    or the [except] clause skips it; the message that clause prints
    calls [card_data.get], which a value that is no dictionary lacks. *)
Definition loop_step (norm : dict -> string -> result Canon.card)
    (set_name : string) (cards : list Canon.card) (card_data : value)
    : result (list Canon.card) :=
  match card_data with
  | VDict d =>
      Ok (match norm d set_name with
          | Ok card => cards ++ [card]
          | Raise _ => cards
          end)
  | _ => Raise AttributeError
  end.

Fixpoint loop (norm : dict -> string -> result Canon.card)
    (set_name : string) (cards : list Canon.card) (items : list value)
    : result (list Canon.card) :=
  match items with
  | [] => Ok cards
  | card_data :: items' =>
      cards' <- loop_step norm set_name cards card_data ;;
      loop norm set_name cards' items'
  end.

(** [fetch_set_data], given what the request produced: the decoded
    body, or the exception of the transport or of the decoder. *)
Definition fetch_set_data_with (norm : dict -> string -> result Canon.card)
    (response : result value) (set_name : string) : list Canon.card :=
  try_except
    (data <- response ;;
     b <- contains data "cards" ;;
     if negb b then Ok []
     else
       cards_data <- item data "cards" ;;
       items <- iter cards_data ;;
       loop norm set_name [] items)
    [].

Definition fetch_set_data : result value -> string -> list Canon.card :=
  fetch_set_data_with normalize.

End Manager.

(** ** fetch_missing_sets.py: normalisation *)

Module FetchMissing.

Definition rarity_mapping (rarity : value) : string :=
  if negb (truthy rarity) then "C" else upper (str rarity).

Definition safe_int : value -> Z -> Z := Manager.safe_int.

(** [rarity_mapping(card_data.get("rarity"))] *)
Definition card_rarity (card_data : dict) : string :=
  rarity_mapping (get card_data "rarity" VNone).

Definition normalize : dict -> string -> result Canon.card :=
  Manager.build_card card_rarity.

Definition fetch_set_data : result value -> string -> list Canon.card :=
  Manager.fetch_set_data_with normalize.

End FetchMissing.

(** A method of [str] called on a value: other values lack it. *)
Definition as_str (v : value) : result string :=
  match v with
  | VStr s => Ok s
  | _ => Raise AttributeError
  end.

(** ** fetch_fftcg_data.py: normalisation *)

Module FetchData.

Definition element_mapping (element_jp : value) : result string :=
  get_or_lower element_table element_jp.

Definition type_mapping (type_en : value) : result string :=
  get_or_lower type_table type_en.

Definition rarity_mapping (rarity : value) : result string :=
  s <- as_str rarity ;; Ok (upper s).

(** [int(card_data.get(k, 0)) if card_data.get(k, "").isdigit() else None] *)
Definition digits_field (card_data : dict) (k : string) : result (option Z) :=
  s <- as_str (get card_data k (VStr "")) ;;
  if isdigit s then z <- int (get card_data k (VInt 0)) ;; Ok (Some z)
  else Ok None.

Definition normalize (card_data : dict) (set_name : string) : result Canon.card :=
  code <- getitem card_data "code" ;;
  e <- getitem card_data "element" ;;
  element <- (if truthy e then
                e <- getitem card_data "element" ;;
                x <- first e ;;
                element_mapping x
              else Ok "unknown") ;;
  type <- type_mapping (get card_data "type_en" (VStr "")) ;;
  cost <- digits_field card_data "cost" ;;
  power <- digits_field card_data "power" ;;
  rarity <- rarity_mapping (get card_data "rarity" (VStr "")) ;;
  code' <- getitem card_data "code" ;;
  let card :=
    {| Canon.id := code;
       Canon.name := get card_data "name_en" (VStr "");
       Canon.element := element;
       Canon.type := type;
       Canon.cost := default 0 cost;
       Canon.power := power;
       Canon.job := get card_data "job_en" (VStr "");
       Canon.category := get card_data "category_1" (VStr "");
       Canon.rarity := VStr rarity;
       Canon.text := get card_data "text_en" (VStr "");
       Canon.set := set_name;
       Canon.cardNumber := code';
       Canon.hasRealImage := true;
       Canon.source := "square-api";
       Canon.image := None |} in
  b <- (if has_key card_data "images" then
          images <- getitem card_data "images" ;;
          contains images "full"
        else Ok false) ;;
  if b then
    img <- Manager.full_image card_data ;;
    Ok (Canon.with_image card img)
  else Ok card.

(** The loop has no handler of its own: [card_data["code"]] on a value
    that is no dictionary, or any exception of the body, leaves it. *)
Fixpoint loop (set_name : string) (cards : list Canon.card) (items : list value)
    : result (list Canon.card) :=
  match items with
  | [] => Ok cards
  | VDict d :: items' =>
      card <- normalize d set_name ;;
      loop set_name (cards ++ [card]) items'
  | _ :: _ => Raise TypeError
  end.

Definition fetch_set_data (response : result value) (set_name : string)
    : list Canon.card :=
  try_except
    (data <- response ;;
     b <- contains data "cards" ;;
     if negb b then Ok []
     else
       cards_data <- item data "cards" ;;
       items <- iter cards_data ;;
       loop set_name [] items)
    [].

End FetchData.

(** ** extract_all_cards.py: normalisation *)

Module Extract.

Section Convert.

(** [json.loads] on a string. *)
Variable json_loads : string -> result value.

Definition is_list (v : value) : bool :=
  match v with
  | VList _ => true
  | _ => false
  end.

(** [v.get(k, default)]: only a dictionary has the method. *)
Definition value_get (v : value) (k : string) (default : value) : result value :=
  match v with
  | VDict d => Ok (get d k default)
  | _ => Raise AttributeError
  end.

Definition loads (v : value) : result value :=
  match v with
  | VStr s => json_loads s
  | _ => Raise TypeError
  end.

Definition image_url (square_card : dict) : value :=
  let image_data := get square_card "image" (VStr "{}") in
  try_except
    (image_json <- loads image_data ;;
     one <- value_get image_json "1" (VDict []) ;;
     image_filename <- value_get one "filename" (VStr "") ;;
     if truthy image_filename
     then Ok (VStr ("https://fftcg.square-enix-games.com/" +:+ str image_filename))
     else Ok VNone)
    VNone.

Definition convert_to_app_format (square_card : dict) (set_name : string)
    : result Canon.card :=
  let element := get square_card "element" (VList [VStr "unknown"]) in
  element <- (if is_list element then
                if truthy element then first element else Ok (VStr "unknown")
              else Ok element) ;;
  element <- get_or_lower element_table element ;;
  let image_url := image_url square_card in
  type <- as_str (get square_card "type_en" (VStr "unknown")) ;;
  cost <- int (get square_card "cost" (VInt 0)) ;;
  power <- (if truthy (get square_card "power" VNone)
            then z <- int (get square_card "power" (VInt 0)) ;; Ok (Some z)
            else Ok None) ;;
  Ok {| Canon.id := get square_card "code" (VStr "unknown");
        Canon.name := get square_card "name_en" (VStr "Unknown");
        Canon.element := element;
        Canon.type := lower type;
        Canon.cost := cost;
        Canon.power := power;
        Canon.job := get square_card "job_en" VNone;
        Canon.category := get square_card "category_1" VNone;
        Canon.rarity := get square_card "rarity" (VStr "C");
        Canon.text := get square_card "text_en" (VStr "");
        Canon.set := set_name;
        Canon.cardNumber := get square_card "code" (VStr "unknown");
        Canon.hasRealImage := true;
        Canon.source := "square-api";
        Canon.image := Some image_url |}.

End Convert.

End Extract.

(** ** The image URL resolver *)

(** The longest prefix of digits, and what follows it. *)
Fixpoint span_digits (s : string) : string * string :=
  match s with
  | EmptyString => (EmptyString, EmptyString)
  | String c s' =>
      if is_digit c then
        let '(ds, rest) := span_digits s' in (String c ds, rest)
      else (EmptyString, s)
  end.

(** [re.match(r'^(\d+)-', card_id)]: group 1 of the match, if any. *)
Definition opus_match (card_id : string) : option string :=
  match span_digits card_id with
  | (String c ds, String "-" _) => Some (String c ds)
  | _ => None
  end.

(** Without its trailing run of capital letters. *)
Fixpoint rstrip_upper (s : string) : string :=
  match s with
  | EmptyString => EmptyString
  | String c s' =>
      let r := rstrip_upper s' in
      if String.eqb r "" && is_upper c then EmptyString else String c r
  end.

Definition newline : ascii := "010"%char.

(** [Some body] when the string is [body] followed by one newline. *)
Fixpoint drop_final_newline (s : string) : option string :=
  match s with
  | EmptyString => None
  | String c s' =>
      match s' with
      | EmptyString => if Ascii.eqb c newline then Some EmptyString else None
      | String _ _ => String c <$> drop_final_newline s'
      end
  end.

(** [re.sub(r'[A-Z]+$', '', card_id)]: [$] stands at the end of the
    string and also before a newline that ends it. *)
Definition sub_upper_end (card_id : string) : string :=
  match drop_final_newline card_id with
  | Some body => rstrip_upper body +:+ String newline EmptyString
  | None => rstrip_upper card_id
  end.

Definition materia_hunter_base : string :=
  "https://storage.googleapis.com/materiahunter-prod.appspot.com/images/cards/".

(** The f-string that ends both resolvers. *)
Definition materia_hunter_path (opus_dir card_number : string) : string :=
  materia_hunter_base +:+ opus_dir +:+ "/" +:+ card_number +:+ ".jpg".

Module ManagerImages.

(** [get_materia_hunter_url] of fftcg_database_manager.py *)
Definition get_materia_hunter_url (card_id : string) : result (option string) :=
  match opus_match card_id with
  | Some group1 =>
      opus_num <- int (VStr group1) ;;
      if (1 <=? opus_num) && (opus_num <=? 19) then
        let opus_dir := format_02d opus_num in
        let card_number := sub_upper_end card_id in
        Ok (Some (materia_hunter_path opus_dir card_number))
      else Ok None
  | None => Ok None
  end.

End ManagerImages.

(** ** update_image_mapping.py: the resolver *)

Module UpdateImages.

Definition get_materia_hunter_opus_directory (card_id : string)
    : result (option string) :=
  match opus_match card_id with
  | Some group1 =>
      opus_num <- int (VStr group1) ;;
      if (1 <=? opus_num) && (opus_num <=? 19) then Ok (Some (format_02d opus_num))
      else Ok None
  | None => Ok None
  end.

(** [if not opus_dir: return None] also turns an empty directory away. *)
Definition generate_url_in (opus_dir : option string) (card_id : string)
    : option string :=
  match opus_dir with
  | None => None
  | Some d =>
      if String.eqb d "" then None
      else Some (materia_hunter_path d (sub_upper_end card_id))
  end.

Definition generate_materia_hunter_url (card_id : string) : result (option string) :=
  opus_dir <- get_materia_hunter_opus_directory card_id ;;
  Ok (generate_url_in opus_dir card_id).

End UpdateImages.

(** ** generate_materia_hunter_mapping.py: the resolver *)

Module GenerateMapping.

Definition get_materia_hunter_opus_directory (card_id : string)
    : result (option string) :=
  if is_prefix "B-" card_id then Ok (Some "boss")
  else if is_prefix "PR-" card_id then Ok (Some "promo")
  else
    match opus_match card_id with
    | Some group1 =>
        opus_num <- int (VStr group1) ;;
        Ok (Some (format_02d opus_num))
    | None => Ok None
    end.

Definition generate_materia_hunter_url (card_id : string) : result (option string) :=
  opus_dir <- get_materia_hunter_opus_directory card_id ;;
  Ok (UpdateImages.generate_url_in opus_dir card_id).

End GenerateMapping.

(** ** The persisted files

    The card collection and the image mapping as the scripts read and
    rewrite them.  A persisted card has the fields the data model gives
    it: [id], [set] and [cardNumber] are strings. *)

Module Store.

Record card := {
  id : string;
  name : value;
  set : string;
  cardNumber : string;
  image : option value;   (* [None]: the record has no key "image" *)
  other : dict            (* the remaining keys *)
}.

(** A canonical record as it is persisted, when its code is a string. *)
Definition of_canon (c : Canon.card) : option card :=
  match Canon.id c, Canon.cardNumber c with
  | VStr i, VStr n =>
      Some {| id := i; name := Canon.name c; set := Canon.set c;
              cardNumber := n; image := Canon.image c;
              other :=
                [("element", VStr (Canon.element c)); ("type", VStr (Canon.type c));
                 ("cost", VInt (Canon.cost c));
                 ("power", from_option VInt VNone (Canon.power c));
                 ("job", Canon.job c); ("category", Canon.category c);
                 ("rarity", Canon.rarity c); ("text", Canon.text c);
                 ("hasRealImage", VBool (Canon.hasRealImage c));
                 ("source", VStr (Canon.source c))] |}
  | _, _ => None
  end.

(** *** Remove duplicates by id *)

(** One turn of the loop over [all_cards], on the pair
    [(seen_ids, unique_cards)]. *)
Definition dedup_step (st : gset string * list card) (c : card)
    : gset string * list card :=
  if decide (id c ∈ st.1) then st
  else ({[id c]} ∪ st.1, st.2 ++ [c]).

Definition dedup (all_cards : list card) : list card :=
  (foldl dedup_step (∅, []) all_cards).2.

(** *** [cards.sort(key=lambda x: (x["set"], x["cardNumber"]))] *)

Definition key (c : card) : string * string := (set c, cardNumber c).

(** [<] on tuples of two strings: the first components decide unless
    they are equal. *)
Definition key_lt (k1 k2 : string * string) : bool :=
  if String.eqb k1.1 k2.1 then String.ltb k1.2 k2.2 else String.ltb k1.1 k2.1.

(** [list.sort] is stable: an insertion sort that moves a record only
    past records with a strictly smaller key computes the same list. *)
Fixpoint insert (c : card) (l : list card) : list card :=
  match l with
  | [] => [c]
  | d :: l' => if key_lt (key d) (key c) then d :: insert c l' else c :: d :: l'
  end.

Definition sort (l : list card) : list card := foldr insert [] l.

(** The merge of both fetch-missing scripts: concatenate, remove
    duplicates by id, sort. *)
Definition merge (existing_cards new_cards : list card) : list card :=
  sort (dedup (existing_cards ++ new_cards)).

(** *** The image mapping *)

Definition is_materia_hunter (e : dict) : bool :=
  match find_key "source" e with
  | Some (VStr s) => String.eqb s "materia-hunter"
  | _ => false
  end.

Definition new_entry (card_name image_url : value) (source_tag : string) : dict :=
  [("name", card_name); ("image", image_url); ("source", VStr source_tag)].

Section ImageMapping.

(** The resolver of the script at hand. *)
Variable materia_hunter_url : string -> result (option string).

(** The part of the loop body after the [continue]. *)
Definition resolve_entry (new_mappings : gmap string dict) (c : card)
    : result (gmap string dict) :=
  materia_url <- materia_hunter_url (id c) ;;
  match materia_url with
  | Some url =>
      if negb (String.eqb url "") then
        Ok (<[id c := new_entry (name c) (VStr url) "materia-hunter"]> new_mappings)
      else
        Ok (match image c with
            | Some img => <[id c := new_entry (name c) img "square-enix"]> new_mappings
            | None => new_mappings
            end)
  | None =>
      Ok (match image c with
          | Some img => <[id c := new_entry (name c) img "square-enix"]> new_mappings
          | None => new_mappings
          end)
  end.

Definition mapping_step (existing_mapping new_mappings : gmap string dict)
    (c : card) : result (gmap string dict) :=
  match existing_mapping !! id c with
  | Some e =>
      if is_materia_hunter e then Ok (<[id c := e]> new_mappings)
      else resolve_entry new_mappings c
  | None => resolve_entry new_mappings c
  end.

Fixpoint mapping_loop (existing_mapping new_mappings : gmap string dict)
    (cards : list card) : result (gmap string dict) :=
  match cards with
  | [] => Ok new_mappings
  | c :: cards' =>
      new_mappings' <- mapping_step existing_mapping new_mappings c ;;
      mapping_loop existing_mapping new_mappings' cards'
  end.

End ImageMapping.

(** *** Runs over the two files *)

Record files := {
  cards_file : option (list card);             (* js/data/fftcg_real_cards.json *)
  mapping_file : option (gmap string dict)     (* js/data/card_image_mapping.json *)
}.

Definition write_cards (cards : list card) (fs : files) : files :=
  {| cards_file := Some cards; mapping_file := mapping_file fs |}.

Definition write_mapping (m : gmap string dict) (fs : files) : files :=
  {| cards_file := cards_file fs; mapping_file := Some m |}.

(** How a run ends: it returns, or an exception ends the process. *)
Inductive outcome :=
| Returned
| Uncaught (e : exn).

Section Runs.

(** The cards [fetch_set_data] returns for a set name. *)
Variable fetch_set_data : string -> list card.

(** The loop that collects the sets: [if cards: ....extend(cards)]. *)
Definition collect (sets : list string) : list card :=
  foldl (fun all_cards set_name =>
           let cards := fetch_set_data set_name in
           match cards with
           | [] => all_cards
           | _ => all_cards ++ cards
           end) [] sets.

(** [fetch_all_sets]: no file is read; the sorted cards are written. *)
Definition fetch_all_sets (all_sets : list string) (fs : files) : outcome * files :=
  (Returned, write_cards (sort (collect all_sets)) fs).

(** [fetch_missing_sets], and [main] of fetch_missing_sets.py. *)
Definition fetch_missing_sets (missing_sets : list string) (fs : files)
    : outcome * files :=
  match cards_file fs with
  | None => (Returned, fs)
  | Some existing_cards =>
      let new_cards := collect missing_sets in
      match new_cards with
      | [] => (Returned, fs)
      | _ => (Returned, write_cards (merge existing_cards new_cards) fs)
      end
  end.

(** [update_image_mappings], and [main] of update_image_mapping.py. *)
Definition update_image_mappings
    (materia_hunter_url : string -> result (option string)) (fs : files)
    : outcome * files :=
  match cards_file fs with
  | None => (Uncaught FileNotFoundError, fs)
  | Some cards =>
      let existing_mapping := default ∅ (mapping_file fs) in
      match mapping_loop materia_hunter_url existing_mapping ∅ cards with
      | Ok new_mappings => (Returned, write_mapping new_mappings fs)
      | Raise e => (Uncaught e, fs)
      end
  end.

(** One call after the other, as long as none ends the process. *)
Definition and_then (run1 run2 : files -> outcome * files) (fs : files)
    : outcome * files :=
  match run1 fs with
  | (Returned, fs') => run2 fs'
  | (Uncaught e, fs') => (Uncaught e, fs')
  end.

End Runs.

End Store.

Definition ALL_SETS : list string :=
  ["Opus I"; "Opus II"; "Opus III"; "Opus IV"; "Opus V"; "Opus VI"; "Opus VII";
   "Opus VIII"; "Opus IX"; "Opus X"; "Opus XI"; "Opus XII"; "Opus XIII"; "Opus XIV";
   "Crystal Dominion"; "Emissaries of Light"; "Rebellion's Call";
   "Resurgence of Power"; "From Nightmares"; "Dawn of Heroes";
   "Beyond Destiny"; "Hidden Hope"; "Hidden Trials"; "Hidden Legends";
   "Tears of the Planet";
   "Boss Deck Chaos"; "Legacy Collection"].

Definition MISSING_SETS : list string :=
  ["Crystal Dominion"; "Emissaries of Light"; "Rebellion's Call";
   "Resurgence of Power"; "Beyond Destiny"; "Hidden Trials"].

(** ** The command lines *)

Module ManagerMain.

(** The flags of [argparse]. *)
Record args := {
  fetch_all : bool;
  fetch_missing : option (list string);
  update_images : bool
}.

Definition update_image_mappings : Store.files -> Store.outcome * Store.files :=
  Store.update_image_mappings ManagerImages.get_materia_hunter_url.

Definition main (fetch_set_data : string -> list Store.card) (a : args)
    (fs : Store.files) : Store.outcome * Store.files :=
  if fetch_all a then
    Store.and_then (Store.fetch_all_sets fetch_set_data ALL_SETS)
      update_image_mappings fs
  else
    match fetch_missing a with
    | Some (set_name :: sets) =>
        Store.and_then (Store.fetch_missing_sets fetch_set_data (set_name :: sets))
          update_image_mappings fs
    | _ =>
        if update_images a then update_image_mappings fs
        else (Store.Returned, fs)
    end.

End ManagerMain.

Module FetchMissingMain.

Definition main (fetch_set_data : string -> list Store.card)
    : Store.files -> Store.outcome * Store.files :=
  Store.fetch_missing_sets fetch_set_data MISSING_SETS.

End FetchMissingMain.

Module UpdateImagesMain.

(** The counts by set that [main] prints after it has written the
    mapping read the entries just written and change no file. *)
Definition main : Store.files -> Store.outcome * Store.files :=
  Store.update_image_mappings UpdateImages.generate_materia_hunter_url.

End UpdateImagesMain.

(** ** update_image_mapping.py: the counts by set

    After it has written the mapping, [main] counts for every set the
    entries of each source. *)

Module UpdateImagesReport.

(** [set_sources[card_set][source] += 1] on the two counters of a set,
    those of "materia-hunter" and of "square-enix": a source that is no
    key of that dictionary raises. *)
Definition count_source (counts : Z * Z) (source : value) : result (Z * Z) :=
  match source with
  | VStr s =>
      if String.eqb s "materia-hunter" then Ok (counts.1 + 1, counts.2)
      else if String.eqb s "square-enix" then Ok (counts.1, counts.2 + 1)
      else Raise KeyError
  | VList _ | VDict _ => Raise TypeError
  | VNone | VBool _ | VInt _ => Raise KeyError
  end.

Definition report_step (new_mappings : gmap string dict)
    (set_sources : gmap string (Z * Z)) (c : Store.card)
    : result (gmap string (Z * Z)) :=
  match new_mappings !! Store.id c with
  | None => Ok set_sources
  | Some e =>
      source <- getitem e "source" ;;
      counts <- count_source (default (0, 0) (set_sources !! Store.set c)) source ;;
      Ok (<[Store.set c := counts]> set_sources)
  end.

Fixpoint report_loop (new_mappings : gmap string dict)
    (set_sources : gmap string (Z * Z)) (cards : list Store.card)
    : result (gmap string (Z * Z)) :=
  match cards with
  | [] => Ok set_sources
  | c :: cards' =>
      set_sources' <- report_step new_mappings set_sources c ;;
      report_loop new_mappings set_sources' cards'
  end.

(** [main] with its report: an exception of the report would end the
    run after the mapping has been written. *)
Definition main (fs : Store.files) : Store.outcome * Store.files :=
  match Store.cards_file fs with
  | None => (Store.Uncaught FileNotFoundError, fs)
  | Some cards =>
      let existing_mapping := default ∅ (Store.mapping_file fs) in
      match Store.mapping_loop UpdateImages.generate_materia_hunter_url
              existing_mapping ∅ cards with
      | Raise e => (Store.Uncaught e, fs)
      | Ok new_mappings =>
          match report_loop new_mappings ∅ cards with
          | Ok _ => (Store.Returned, Store.write_mapping new_mappings fs)
          | Raise e => (Store.Uncaught e, Store.write_mapping new_mappings fs)
          end
      end
  end.

End UpdateImagesReport.

(** ** generate_materia_hunter_mapping.py: the run

    The request that tests the URL of the first ten cards only prints
    its answer, and catches its own exceptions. *)

Module GenerateMappingMain.

(** Any entry the persisted mapping has for the card is kept. *)
Definition mapping_step (existing_mapping new_mappings : gmap string dict)
    (c : Store.card) : result (gmap string dict) :=
  match existing_mapping !! Store.id c with
  | Some e => Ok (<[Store.id c := e]> new_mappings)
  | None =>
      Store.resolve_entry GenerateMapping.generate_materia_hunter_url new_mappings c
  end.

Fixpoint mapping_loop (existing_mapping new_mappings : gmap string dict)
    (cards : list Store.card) : result (gmap string dict) :=
  match cards with
  | [] => Ok new_mappings
  | c :: cards' =>
      new_mappings' <- mapping_step existing_mapping new_mappings c ;;
      mapping_loop existing_mapping new_mappings' cards'
  end.

(** A value that can be the key of a dictionary. *)
Definition hashable (v : value) : bool :=
  match v with
  | VList _ | VDict _ => false
  | _ => true
  end.

(** The count of the entries by source, [sources[source] = ...] with
    [source = mapping.get('source', 'unknown')], goes through when
    every source is hashable; the counts are only printed. *)
Definition breakdown_goes_through (new_mappings : gmap string dict) : bool :=
  bool_decide (map_Forall (fun _ e => hashable (get e "source" (VStr "unknown")) = true)
                 new_mappings).

Definition main (fs : Store.files) : Store.outcome * Store.files :=
  match Store.cards_file fs with
  | None => (Store.Uncaught FileNotFoundError, fs)
  | Some cards =>
      let existing_mapping := default ∅ (Store.mapping_file fs) in
      match mapping_loop existing_mapping ∅ cards with
      | Raise e => (Store.Uncaught e, fs)
      | Ok new_mappings =>
          if breakdown_goes_through new_mappings
          then (Store.Returned, Store.write_mapping new_mappings fs)
          else (Store.Uncaught TypeError, Store.write_mapping new_mappings fs)
      end
  end.

End GenerateMappingMain.

(** ** Notions used to state the properties *)

(** The supported range of set numbers. *)
Definition in_range (n : Z) : bool := (1 <=? n) && (n <=? 19).

(** What the range-checked resolvers compute, free of the error monad. *)
Definition resolved (card_id : string) : option string :=
  match opus_match card_id with
  | Some ds =>
      if in_range (digits_val 0 ds)
      then Some (materia_hunter_path (format_02d (digits_val 0 ds))
                   (sub_upper_end card_id))
      else None
  | None => None
  end.

(** The integer a raw value stands for when it consists of decimal
    digits only: a string of digits, or a positive JSON number. *)
Definition digits_value (v : value) : option Z :=
  match v with
  | VStr s => if isdigit s then Some (digits_val 0 s) else None
  | VInt z => if 0 <? z then Some z else None
  | _ => None
  end.

(** The shapes of the three raw fields the normaliser of the manager
    looks into: [element] a list of strings (or one string), [type_en] a
    string, [images] an object whose [full] is a list.  A field may be
    absent, [element], [type_en] and [full] may be null. *)
Definition is_string (v : value) : bool :=
  match v with
  | VStr _ => true
  | _ => false
  end.

Definition element_shape (v : value) : bool :=
  match v with
  | VNone | VStr _ => true
  | VList l => forallb is_string l
  | _ => false
  end.

Definition type_shape (v : value) : bool :=
  match v with
  | VNone | VStr _ => true
  | _ => false
  end.

Definition images_shape (v : value) : bool :=
  match v with
  | VDict d =>
      match find_key "full" d with
      | None | Some VNone | Some (VList _) => true
      | Some _ => false
      end
  | _ => false
  end.

Definition field_shape (shape : value -> bool) (k : string) (d : dict) : bool :=
  match find_key k d with
  | Some v => shape v
  | None => true
  end.

Definition well_shaped (card_data : dict) : bool :=
  field_shape element_shape "element" card_data &&
  field_shape type_shape "type_en" card_data &&
  field_shape images_shape "images" card_data.

(** The value of a result, if any. *)
Definition ok_value {A} (r : result A) : option A :=
  match r with
  | Ok a => Some a
  | Raise _ => None
  end.

(** The decoded body of a response that carries the given records. *)
Definition cards_response (records : list dict) : result value :=
  Ok (VDict [("cards", VList (VDict <$> records))]).

(** [has_id i] holds of the cards whose id is [i]; [find (has_id i) l]
    is the first of them in [l]. *)
Definition has_id (i : string) (c : Store.card) : bool :=
  String.eqb (Store.id c) i.

(** Ascending lexicographic order on pairs of strings, strings
    themselves being compared character by character. *)
Definition lex_le (k1 k2 : string * string) : Prop :=
  String.ltb k1.1 k2.1 = true \/ (k1.1 = k2.1 /\ String.leb k1.2 k2.2 = true).

(** The order of two cards by (set name, card number). *)
Definition key_le (c d : Store.card) : Prop :=
  lex_le (Store.key c) (Store.key d).

(** The same order when the pair is (set name, id). *)
Definition set_id_le (c d : Store.card) : Prop :=
  lex_le (Store.set c, Store.id c) (Store.set d, Store.id d).

(** The precedence rule of the image mapping, in the words of the
    specification: an existing entry of the preferred source is kept;
    otherwise the secondary URL, when one can be derived; otherwise the
    primary URL of the record, when it has one; otherwise no entry. *)
Definition spec_entry (existing_mapping : gmap string dict) (c : Store.card)
    : option dict :=
  match existing_mapping !! Store.id c with
  | Some e =>
      if Store.is_materia_hunter e then Some e
      else
        match resolved (Store.id c), Store.image c with
        | Some url, _ => Some (Store.new_entry (Store.name c) (VStr url) "materia-hunter")
        | None, Some img => Some (Store.new_entry (Store.name c) img "square-enix")
        | None, None => None
        end
  | None =>
      match resolved (Store.id c), Store.image c with
      | Some url, _ => Some (Store.new_entry (Store.name c) (VStr url) "materia-hunter")
      | None, Some img => Some (Store.new_entry (Store.name c) img "square-enix")
      | None, None => None
      end
  end.

(** The mapping after a card has been given its entry, if it has one. *)
Definition add_entry (existing_mapping new_mappings : gmap string dict)
    (c : Store.card) : gmap string dict :=
  match spec_entry existing_mapping c with
  | Some e => <[Store.id c := e]> new_mappings
  | None => new_mappings
  end.

(** Sample data for the examples. *)
Definition sample_card (i n s : string) (img : option value) : Store.card :=
  {| Store.id := i; Store.name := VStr n; Store.set := s;
     Store.cardNumber := i; Store.image := img; Store.other := [] |}.

Definition no_files : Store.files :=
  {| Store.cards_file := None; Store.mapping_file := None |}.

(** An upstream that lists the card 1-001H under its own set and again
    under the collection of reprints. *)
Definition reprint_upstream (set_name : string) : list Store.card :=
  if String.eqb set_name "Opus I" then [sample_card "1-001H" "Auron" "Opus I" None]
  else if String.eqb set_name "Legacy Collection"
       then [sample_card "1-001H" "Auron" "Legacy Collection" None]
  else [].

(** Three cards: one of a supported set, one of a set outside the range
    that carries the image of the primary source, one promo card with no
    image at all. *)
Definition sample_cards : list Store.card :=
  [sample_card "1-001H" "Auron" "Opus I" None;
   sample_card "20-001C" "Cloud" "Dawn of Heroes"
     (Some (VStr "https://fftcg.square-enix-games.com/20-001C.jpg"));
   sample_card "PR-001" "Lightning" "Promo" None].

(** A persisted mapping with an entry of the preferred source for a card
    that is in [sample_cards], and one for a card that is not. *)
Definition sample_mapping : gmap string dict :=
  <["1-001H" := Store.new_entry (VStr "Auron") (VStr "https://example.org/kept.jpg")
                  "materia-hunter"]>
  (<["9-999L" := Store.new_entry (VStr "Gone") (VStr "https://example.org/gone.jpg")
                   "materia-hunter"]> ∅).

Definition sample_files : Store.files :=
  {| Store.cards_file := Some sample_cards; Store.mapping_file := Some sample_mapping |}.

(** The test of fetch_fftcg_data.py for the image. *)
Definition fetch_data_has_image (card_data : dict) : result bool :=
  if has_key card_data "images" then
    images <- getitem card_data "images" ;;
    contains images "full"
  else Ok false.

(** The decoded body of a response whose list of cards holds the given
    items, objects or not. *)
Definition items_response (items : list value) : result value :=
  Ok (VDict [("cards", VList items)]).

Definition is_dict (v : value) : bool :=
  match v with
  | VDict _ => true
  | _ => false
  end.

(** The first item of the list [full] of the object [images] of a raw
    record, when the record has all of them. *)
Definition first_full_image (card_data : dict) : option value :=
  match find_key "images" card_data with
  | Some (VDict images) =>
      match find_key "full" images with
      | Some full => ok_value (first full)
      | None => None
      end
  | _ => None
  end.

(** A loop that gives some cards an entry: the mapping after a card,
    and the entry of an id after all cards, the last one given. *)
Definition put_entry (entry_of : Store.card -> option dict)
    (new_mappings : gmap string dict) (c : Store.card) : gmap string dict :=
  match entry_of c with
  | Some e => <[Store.id c := e]> new_mappings
  | None => new_mappings
  end.

Definition entry_after (entry_of : Store.card -> option dict) (i : string)
    (before : option dict) (cards : list Store.card) : option dict :=
  foldl (fun acc c =>
           if has_id i c then
             match entry_of c with
             | Some e => Some e
             | None => acc
             end
           else acc) before cards.

(** The entry a card gets from its own URLs: the secondary URL first,
    the primary one otherwise. *)
Definition fresh_entry (secondary_url : option string) (c : Store.card) : option dict :=
  match secondary_url, Store.image c with
  | Some url, _ => Some (Store.new_entry (Store.name c) (VStr url) "materia-hunter")
  | None, Some img => Some (Store.new_entry (Store.name c) img "square-enix")
  | None, None => None
  end.

(** The secondary URL of generate_materia_hunter_mapping.py. *)
Definition generated (card_id : string) : option string :=
  default None (ok_value (GenerateMapping.generate_materia_hunter_url card_id)).

(** The rule of generate_materia_hunter_mapping.py: any existing entry
    is kept. *)
Definition generator_entry (existing_mapping : gmap string dict) (c : Store.card)
    : option dict :=
  match existing_mapping !! Store.id c with
  | Some e => Some e
  | None => fresh_entry (generated (Store.id c)) c
  end.

(** The source tag of the entry of a card, when it is a string. *)
Definition card_source (new_mappings : gmap string dict) (c : Store.card)
    : option string :=
  match new_mappings !! Store.id c with
  | Some e =>
      match find_key "source" e with
      | Some (VStr s) => Some s
      | _ => None
      end
  | None => None
  end.

(** The number of cards of a set whose entry has a given source. *)
Definition count_cards (new_mappings : gmap string dict) (set_name source_tag : string)
    (cards : list Store.card) : Z :=
  Z.of_nat (length (filter (fun c => Store.set c = set_name /\
                                     card_source new_mappings c = Some source_tag)
                      cards)).

(** * Properties *)

(** ** Strings of digits *)

(** Comparisons of character codes, decided case by case. *)
Ltac char_cases :=
  unfold is_digit, is_upper, is_lower, is_space, is_continuation in *;
  repeat match goal with
    | H : context [(?a <=? ?b)%N] |- _ => destruct (N.leb_spec a b)
    | |- context [(?a <=? ?b)%N] => destruct (N.leb_spec a b)
    end;
  simpl in *; try reflexivity; try discriminate; try lia.

Section StringFacts.

Lemma append_cons (c : ascii) (a b : string) :
  String c a +:+ b = String c (a +:+ b).
Proof. reflexivity. Qed.

Lemma append_empty_l (s : string) : EmptyString +:+ s = s.
Proof. reflexivity. Qed.

Lemma append_empty_r (s : string) : s +:+ EmptyString = s.
Proof. induction s as [|c s IH]; [reflexivity|]. rewrite append_cons, IH. reflexivity. Qed.


Lemma eqb_empty_cons (c : ascii) (s : string) : String.eqb (String c s) "" = false.
Proof. reflexivity. Qed.

Lemma sall_app (p : ascii -> bool) (a b : string) :
  sall p (a +:+ b) = sall p a && sall p b.
Proof.
  induction a as [|c a IH]; [reflexivity|].
  rewrite append_cons. simpl. rewrite IH. apply andb_assoc.
Qed.

Lemma sall_impl (p q : ascii -> bool) (s : string) :
  (forall c, p c = true -> q c = true) -> sall p s = true -> sall q s = true.
Proof.
  intros Hpq. induction s as [|c s IH]; [reflexivity|]. simpl.
  intros [Hc Hs]%andb_true_iff. rewrite (Hpq c Hc). simpl. auto.
Qed.


Lemma digit_not_space (c : ascii) : is_digit c = true -> is_space c = false.
Proof. char_cases. Qed.


Lemma upper_not_newline (c : ascii) : is_upper c = true -> Ascii.eqb c newline = false.
Proof.
  intros H. apply Ascii.eqb_neq. intros ->. discriminate H.
Qed.

Lemma digit_not_sign (c : ascii) (s : string) :
  is_digit c = true ->
  match String c s with
  | String "-" r => Z.opp <$> int_digits false 0 r
  | String "+" r => int_digits false 0 r
  | t => int_digits false 0 t
  end = int_digits false 0 (String c s).
Proof.
  intros H.
  destruct c as [[] [] [] [] [] [] [] []]; try reflexivity; discriminate H.
Qed.

(** A string without white space is its own [strip]. *)
Lemma lstrip_digits (s : string) : sall is_digit s = true -> lstrip s = s.
Proof.
  destruct s as [|c s]; [reflexivity|]. simpl.
  intros [Hc _]%andb_true_iff. rewrite (digit_not_space c Hc). reflexivity.
Qed.

Lemma rstrip_digits (s : string) : sall is_digit s = true -> rstrip s = s.
Proof.
  induction s as [|c s IH]; [reflexivity|]. simpl.
  intros [Hc Hs]%andb_true_iff. rewrite (IH Hs), (digit_not_space c Hc).
  rewrite andb_false_r. reflexivity.
Qed.

Lemma int_digits_all (s : string) (b : bool) (acc : Z) :
  sall is_digit s = true -> (b = true \/ s <> EmptyString) ->
  int_digits b acc s = Some (digits_val acc s).
Proof.
  revert b acc. induction s as [|c s IH]; intros b acc Hs Hb.
  - destruct Hb as [-> | Hne]; [reflexivity | contradiction].
  - simpl in *. apply andb_true_iff in Hs as [Hc Hs]. rewrite Hc.
    apply IH; auto.
Qed.

(** [int] of a string of decimal digits is its value, with no exception. *)
Lemma int_of_digits (s : string) :
  isdigit s = true -> int (VStr s) = Ok (digits_val 0 s).
Proof.
  unfold isdigit. intros [Hne Hs]%andb_true_iff.
  simpl. unfold int_of_string, strip.
  rewrite (lstrip_digits s Hs), (rstrip_digits s Hs).
  destruct s as [|c s]; [discriminate Hne|].
  pose proof Hs as Hs'. simpl in Hs'. apply andb_true_iff in Hs' as [Hc _].
  rewrite (digit_not_sign c s Hc).
  rewrite (int_digits_all (String c s) false 0 Hs); [reflexivity|].
  right. discriminate.
Qed.

Lemma digits_val_nonneg (s : string) (acc : Z) : 0 <= acc -> 0 <= digits_val acc s.
Proof.
  revert acc. induction s as [|c s IH]; intros acc Hacc; simpl; [exact Hacc|].
  apply IH. unfold digit_val. lia.
Qed.

End StringFacts.

(** ** The image URL resolver *)

Section ResolverFacts.

Lemma span_digits_spec (s : string) :
  let '(ds, rest) := span_digits s in
  s = ds +:+ rest /\ sall is_digit ds = true.
Proof.
  induction s as [|c s IH]; [split; reflexivity|]. simpl.
  destruct (is_digit c) eqn:Hc.
  - destruct (span_digits s) as [ds rest]. destruct IH as [-> Hds].
    split; [reflexivity|]. simpl. rewrite Hc, Hds. reflexivity.
  - split; reflexivity.
Qed.



Lemma opus_match_inv (card_id ds : string) :
  opus_match card_id = Some ds ->
  isdigit ds = true /\ exists rest, card_id = ds +:+ String "-" rest.
Proof.
  unfold opus_match. pose proof (span_digits_spec card_id) as H.
  destruct (span_digits card_id) as [ds' rest]. destruct H as [-> Hds].
  destruct ds' as [|c ds']; [discriminate|].
  destruct rest as [|d rest]; [discriminate|].
  destruct (Ascii.eqb_spec d "-") as [-> | Hd].
  - intros [= <-]. split; [|eexists; reflexivity].
    unfold isdigit. rewrite Hds. reflexivity.
  - intros H. exfalso. apply Hd.
    destruct d as [[] [] [] [] [] [] [] []]; try discriminate H; reflexivity.
Qed.

Lemma get_materia_hunter_url_resolved (card_id : string) :
  ManagerImages.get_materia_hunter_url card_id = Ok (resolved card_id).
Proof.
  unfold ManagerImages.get_materia_hunter_url, resolved.
  destruct (opus_match card_id) as [ds|] eqn:Hm; [|reflexivity].
  apply opus_match_inv in Hm as [Hds _].
  rewrite (int_of_digits ds Hds). simpl. unfold in_range.
  destruct ((1 <=? digits_val 0 ds) && (digits_val 0 ds <=? 19)); reflexivity.
Qed.

(** In the supported range the directory is the set number written
    with two digits. *)
Lemma format_02d_in_range (n : Z) :
  in_range n = true ->
  String.length (format_02d n) = 2%nat /\ isdigit (format_02d n) = true /\
  digits_val 0 (format_02d n) = n.
Proof.
  unfold in_range. intros [H1 H2]%andb_true_iff.
  apply Z.leb_le in H1, H2.
  assert (Hn : n = 1 \/ n = 2 \/ n = 3 \/ n = 4 \/ n = 5 \/ n = 6 \/ n = 7 \/
               n = 8 \/ n = 9 \/ n = 10 \/ n = 11 \/ n = 12 \/ n = 13 \/
               n = 14 \/ n = 15 \/ n = 16 \/ n = 17 \/ n = 18 \/ n = 19) by lia.
  repeat (destruct Hn as [-> | Hn]; [repeat split|]).
  subst n. repeat split.
Qed.

Lemma opus_directory_resolved (card_id : string) :
  UpdateImages.get_materia_hunter_opus_directory card_id =
  Ok (match opus_match card_id with
      | Some ds =>
          if in_range (digits_val 0 ds) then Some (format_02d (digits_val 0 ds))
          else None
      | None => None
      end).
Proof.
  unfold UpdateImages.get_materia_hunter_opus_directory.
  destruct (opus_match card_id) as [ds|] eqn:Hm; [|reflexivity].
  apply opus_match_inv in Hm as [Hds _].
  rewrite (int_of_digits ds Hds). simpl. unfold in_range.
  destruct ((1 <=? digits_val 0 ds) && (digits_val 0 ds <=? 19)); reflexivity.
Qed.

(** Both range-checked resolvers are the same function. *)
Lemma generate_materia_hunter_url_resolved (card_id : string) :
  UpdateImages.generate_materia_hunter_url card_id = Ok (resolved card_id).
Proof.
  unfold UpdateImages.generate_materia_hunter_url, resolved.
  rewrite opus_directory_resolved. simpl.
  destruct (opus_match card_id) as [ds|]; [|reflexivity].
  destruct (in_range (digits_val 0 ds)) eqn:Hr; [|reflexivity].
  simpl. destruct (format_02d_in_range _ Hr) as [Hlen _].
  destruct (String.eqb_spec (format_02d (digits_val 0 ds)) "") as [He|]; [|reflexivity].
  rewrite He in Hlen. discriminate Hlen.
Qed.

(** *** Stripping the rarity letters *)

Lemma rstrip_upper_all_upper (s : string) :
  sall is_upper s = true -> rstrip_upper s = EmptyString.
Proof.
  induction s as [|c s IH]; [reflexivity|]. simpl.
  intros [Hc Hs]%andb_true_iff. rewrite (IH Hs), Hc. reflexivity.
Qed.


Lemma rstrip_upper_app (s letters : string) :
  sall is_upper letters = true ->
  rstrip_upper (s +:+ letters) = rstrip_upper s.
Proof.
  intros Hl. induction s as [|c s IH].
  - rewrite append_empty_l. apply rstrip_upper_all_upper, Hl.
  - rewrite append_cons. simpl. rewrite IH. reflexivity.
Qed.

Lemma drop_final_newline_none (s : string) :
  sall (fun c => negb (Ascii.eqb c newline)) s = true ->
  drop_final_newline s = None.
Proof.
  induction s as [|c s IH]; [reflexivity|]. simpl.
  intros [Hc Hs]%andb_true_iff. apply negb_true_iff in Hc.
  destruct s as [|d s]; [rewrite Hc; reflexivity|].
  rewrite (IH Hs). reflexivity.
Qed.


End ResolverFacts.





(** Identifiers without the shape, and set numbers at the edges of the
    range. *)
Example resolver_examples :
  ManagerImages.get_materia_hunter_url "PR-001" = Ok None /\
  ManagerImages.get_materia_hunter_url "B-012" = Ok None /\
  ManagerImages.get_materia_hunter_url "" = Ok None /\
  ManagerImages.get_materia_hunter_url "12" = Ok None /\
  ManagerImages.get_materia_hunter_url "0-001C" = Ok None /\
  ManagerImages.get_materia_hunter_url "1-001H"
    = Ok (Some (materia_hunter_base +:+ "01/1-001.jpg")) /\
  ManagerImages.get_materia_hunter_url "19-128L"
    = Ok (Some (materia_hunter_base +:+ "19/19-128.jpg")) /\
  ManagerImages.get_materia_hunter_url "007-001H"
    = Ok (Some (materia_hunter_base +:+ "07/007-001.jpg")).
Proof. repeat split. Qed.


(** ** The normalisers *)

Section NormalizerFacts.

Lemma string_of_uint_digits (d : Decimal.uint) :
  sall is_digit (NilEmpty.string_of_uint d) = true.
Proof. induction d; simpl; try assumption; reflexivity. Qed.

(** The decimal notation of an integer is made of digits exactly when
    the integer is not negative. *)
Lemma isdigit_dec (z : Z) : isdigit (dec z) = (0 <=? z).
Proof.
  unfold dec, isdigit. destruct z as [|p|p]; [reflexivity| |reflexivity].
  simpl. unfold NilZero.string_of_uint.
  pose proof (string_of_uint_digits (Pos.to_uint p)) as H.
  destruct (Pos.to_uint p) eqn:E; try reflexivity;
    simpl in *; rewrite H; reflexivity.
Qed.

Lemma isdigit_nonempty (s : string) : isdigit s = true -> truthy (VStr s) = true.
Proof. unfold isdigit. simpl. intros [H _]%andb_true_iff. exact H. Qed.

(** [safe_int] never needs its handler: it parses the digits or
    returns the default. *)
Lemma safe_int_digits_value (v : value) (d : Z) :
  Manager.safe_int v d = default d (digits_value v).
Proof.
  unfold Manager.safe_int. destruct v as [|b|z|s|l|kvs]; simpl.
  - reflexivity.
  - destruct b; reflexivity.
  - rewrite isdigit_dec.
    destruct (Z.eqb_spec z 0), (Z.leb_spec 0 z), (Z.ltb_spec 0 z);
      simpl; try reflexivity; lia.
  - destruct (isdigit s) eqn:Hs.
    + pose proof (isdigit_nonempty s Hs) as Ht. simpl in Ht. rewrite Ht. simpl.
      pose proof (int_of_digits s Hs) as Hi. simpl in Hi. rewrite Hi. reflexivity.
    + rewrite andb_false_r. reflexivity.
  - destruct l; reflexivity.
  - destruct kvs; reflexivity.
Qed.

(** The fields of a card that [build_card] returns. *)
Lemma build_card_fields (rarity_of : dict -> string) (card_data : dict)
    (set_name : string) (card : Canon.card) :
  Manager.build_card rarity_of card_data set_name = Ok card ->
  Canon.id card = get card_data "code" (VStr "unknown") /\
  Canon.cardNumber card = Canon.id card /\
  Canon.set card = set_name /\
  Canon.source card = "square-api" /\
  Canon.cost card = Manager.safe_int (get card_data "cost" VNone) 0 /\
  Canon.power card =
    (if truthy (get card_data "power" VNone)
     then Some (Manager.safe_int (get card_data "power" VNone) 0) else None) /\
  Canon.rarity card = VStr (rarity_of card_data).
Proof.
  unfold Manager.build_card.
  destruct (Manager.card_element card_data) as [e|]; [|discriminate].
  destruct (Manager.type_mapping _) as [t|]; [|discriminate].
  simpl. destruct (Manager.has_full_image card_data) as [[]|]; [| |discriminate]; simpl.
  - destruct (Manager.full_image card_data) as [img|]; [|discriminate].
    simpl. intros [= <-]. repeat split.
  - intros [= <-]. repeat split.
Qed.

Lemma get_find_key (d : dict) (k : string) (dflt : value) :
  get d k dflt = default dflt (find_key k d).
Proof. unfold get. destruct (find_key k d); reflexivity. Qed.

Lemma get_or_lower_string (t : list (string * string)) (s : string) :
  exists r, get_or_lower t (VStr s) = Ok r.
Proof. eexists. reflexivity. Qed.

Lemma card_element_well_shaped (card_data : dict) :
  field_shape element_shape "element" card_data = true ->
  exists e, Manager.card_element card_data = Ok e.
Proof.
  unfold field_shape, Manager.card_element, getitem, get.
  destruct (find_key "element" card_data) as [v|]; [|eexists; reflexivity].
  destruct v as [|b|z|s|l|kvs]; simpl; try discriminate;
    try (eexists; reflexivity).
  - intros _. destruct s as [|c s]; simpl; [eexists; reflexivity|].
    destruct (if is_continuation c then slen s else S (slen s));
      simpl; eexists; reflexivity.
  - destruct l as [|x l]; simpl; [eexists; reflexivity|].
    intros [Hx _]%andb_true_iff. destruct x; try discriminate Hx.
    unfold Manager.element_mapping. simpl.
    destruct (negb (negb _)); eexists; reflexivity.
Qed.

Lemma type_mapping_well_shaped (card_data : dict) :
  field_shape type_shape "type_en" card_data = true ->
  exists t, Manager.type_mapping (get card_data "type_en" (VStr "")) = Ok t.
Proof.
  unfold field_shape, get.
  destruct (find_key "type_en" card_data) as [v|]; [|eexists; reflexivity].
  destruct v; try discriminate; intros _; unfold Manager.type_mapping; simpl;
    [eexists; reflexivity|].
  destruct (negb (negb _)); eexists; reflexivity.
Qed.

Lemma image_well_shaped (card_data : dict) :
  field_shape images_shape "images" card_data = true ->
  Manager.has_full_image card_data = Ok false \/
  Manager.has_full_image card_data = Ok true /\
  exists img, Manager.full_image card_data = Ok img.
Proof.
  unfold field_shape, Manager.has_full_image, Manager.full_image, has_key, getitem.
  destruct (find_key "images" card_data) as [v|]; [|left; reflexivity].
  destruct v as [|b|z|s|l|kvs]; simpl; try discriminate.
  unfold has_key, getitem.
  destruct (find_key "full" kvs) as [full|]; simpl; [|left; reflexivity].
  destruct full as [|b|z|s|l|kvs']; try discriminate; simpl.
  - left; reflexivity.
  - destruct l as [|x l]; [left; reflexivity|].
    right. split; [reflexivity|]. eexists. reflexivity.
Qed.

Lemma build_card_well_shaped (rarity_of : dict -> string) (card_data : dict)
    (set_name : string) :
  well_shaped card_data = true ->
  exists card, Manager.build_card rarity_of card_data set_name = Ok card.
Proof.
  unfold well_shaped. intros [[He Ht]%andb_true_iff Hi]%andb_true_iff.
  destruct (card_element_well_shaped _ He) as [e Ee].
  destruct (type_mapping_well_shaped _ Ht) as [t Et].
  unfold Manager.build_card. rewrite Ee, Et. simpl.
  destruct (image_well_shaped _ Hi) as [-> | [-> [img ->]]];
    simpl; eexists; reflexivity.
Qed.

(** The loop over records that are dictionaries keeps, in order, the
    card of every record whose normalisation succeeds. *)
Lemma loop_dicts (norm : dict -> string -> result Canon.card)
    (set_name : string) (records : list dict) (cards : list Canon.card) :
  Manager.loop norm set_name cards (VDict <$> records) =
  Ok (cards ++ omap (fun d => ok_value (norm d set_name)) records).
Proof.
  revert cards. induction records as [|d records IH]; intros cards; simpl.
  - rewrite app_nil_r. reflexivity.
  - rewrite IH. destruct (norm d set_name); simpl.
    + rewrite <- app_assoc. reflexivity.
    + reflexivity.
Qed.

Lemma fetch_set_data_with_dicts (norm : dict -> string -> result Canon.card)
    (set_name : string) (records : list dict) :
  Manager.fetch_set_data_with norm (cards_response records) set_name =
  omap (fun d => ok_value (norm d set_name)) records.
Proof.
  unfold Manager.fetch_set_data_with, cards_response. simpl.
  rewrite loop_dicts. reflexivity.
Qed.

Lemma omap_all_ok (norm : dict -> string -> result Canon.card)
    (set_name : string) (records : list dict) :
  Forall (fun d => exists card, norm d set_name = Ok card) records ->
  length (omap (fun d => ok_value (norm d set_name)) records) = length records.
Proof.
  induction 1 as [|d records [card E] _ IH]; [reflexivity|].
  simpl. rewrite E. simpl. f_equal. exact IH.
Qed.

Lemma to_upper_not_lower (c : ascii) : is_lower (to_upper c) = false.
Proof.
  unfold to_upper. destruct (is_lower c) eqn:Hc; [|exact Hc].
  unfold is_lower, code in *. rewrite N_ascii_embedding; char_cases.
Qed.

Lemma upper_no_lower (s : string) :
  sall (fun c => negb (is_lower c)) (upper s) = true.
Proof.
  induction s as [|c s IH]; [reflexivity|]. simpl.
  rewrite to_upper_not_lower. exact IH.
Qed.

End NormalizerFacts.

(** C1, as the loops of fftcg_database_manager.py and
    fetch_missing_sets.py have it.  For every raw record (a dictionary)
    and set name no exception leaves the turn of the loop: the record
    gives one canonical card, appended to the cards, or the handler
    skips it.  A record whose [element], [type_en] and [images] have
    the expected shapes — whatever its other fields — always gives its
    card, filed under the set name, with [cardNumber] equal to [id].
    For a response that carries records, [fetch_set_data] returns, in
    order, the cards of the records that give one: one card per record
    when all records have the expected shapes. *)
Theorem C1_record_is_normalized_or_skipped
    (card_data : dict) (set_name : string) (cards : list Canon.card) :
  (forall norm, norm = Manager.normalize \/ norm = FetchMissing.normalize ->
     exists cards',
       Manager.loop_step norm set_name cards (VDict card_data) = Ok cards' /\
       ((exists card, norm card_data set_name = Ok card /\ cards' = cards ++ [card]) \/
        (raises (norm card_data set_name) /\ cards' = cards))) /\
  (well_shaped card_data = true ->
     forall norm, norm = Manager.normalize \/ norm = FetchMissing.normalize ->
     exists card,
       norm card_data set_name = Ok card /\
       Canon.set card = set_name /\ Canon.cardNumber card = Canon.id card) /\
  (forall records : list dict,
     Manager.fetch_set_data (cards_response records) set_name
     = omap (fun d => ok_value (Manager.normalize d set_name)) records /\
     FetchMissing.fetch_set_data (cards_response records) set_name
     = omap (fun d => ok_value (FetchMissing.normalize d set_name)) records /\
     (Forall (fun d => well_shaped d = true) records ->
      length (Manager.fetch_set_data (cards_response records) set_name)
      = length records /\
      length (FetchMissing.fetch_set_data (cards_response records) set_name)
      = length records)).
Proof.
  split; [|split].
  - intros norm _. simpl. destruct (norm card_data set_name) as [card|e] eqn:E.
    + eexists. split; [reflexivity|]. left. eexists. split; reflexivity.
    + eexists. split; [reflexivity|]. right. split; [exact I | reflexivity].
  - intros Hw norm [-> | ->].
    + destruct (build_card_well_shaped Manager.card_rarity _ set_name Hw) as [card E].
      exists card. split; [exact E|].
      apply build_card_fields in E. tauto.
    + destruct (build_card_well_shaped FetchMissing.card_rarity _ set_name Hw) as [card E].
      exists card. split; [exact E|].
      apply build_card_fields in E. tauto.
  - intros records.
    unfold Manager.fetch_set_data, FetchMissing.fetch_set_data.
    rewrite !fetch_set_data_with_dicts.
    split; [reflexivity|]. split; [reflexivity|]. intros Hw.
    split; apply omap_all_ok; (eapply Forall_impl; [exact Hw|]);
      intros d Hd; apply build_card_well_shaped, Hd.
Qed.

Lemma C1_record_is_normalized_or_skipped_witness :
  exists card,
    Manager.normalize [("code", VStr "1-001H"); ("element", VList [VStr "火"])]
      "Opus I" = Ok card /\
    Canon.set card = "Opus I" /\ Canon.cardNumber card = Canon.id card.
Proof.
  exact (proj1 (proj2 (C1_record_is_normalized_or_skipped
           [("code", VStr "1-001H"); ("element", VList [VStr "火"])] "Opus I" []))
         eq_refl Manager.normalize (or_introl eq_refl)).
Defined.

(** C1 fails as stated.  The manager skips a record whose [element] is
    a number, so that record gives no canonical card; the converter of
    extract_all_cards.py has no handler, and a cost that is no number
    raises out of it, whatever [json.loads] does; in fetch_fftcg_data.py
    a record without [code] loses the whole set. *)
Lemma C1_malformed_record_gives_no_card :
  Manager.normalize [("element", VInt 5)] "Opus I" = Raise TypeError /\
  Manager.fetch_set_data (cards_response [[("element", VInt 5)]]) "Opus I" = [] /\
  (forall json_loads,
     Extract.convert_to_app_format json_loads [("cost", VStr "X")] "Opus 1"
     = Raise ValueError) /\
  FetchData.fetch_set_data
    (cards_response [[("code", VStr "1-001H"); ("element", VList [])];
                     [("name_en", VStr "Auron")]]) "Opus I" = [].
Proof. repeat split. Qed.

(** A record of the upstream, its canonical card, and the card as the
    card file holds it. *)
Example normalize_sample :
  exists card,
    Manager.normalize
      [("code", VStr "1-001H"); ("name_en", VStr "Auron");
       ("element", VList [VStr "火"]); ("type_en", VStr "Forward");
       ("cost", VStr "6"); ("power", VStr "9000"); ("rarity", VStr "h");
       ("images", VDict [("full", VList [VStr "https://example.org/1-001H.jpg"])])]
      "Opus I" = Ok card /\
    Canon.element card = "fire" /\ Canon.type card = "forward" /\
    Canon.cost card = 6 /\ Canon.power card = Some 9000 /\
    Canon.rarity card = VStr "H" /\
    Canon.image card = Some (VStr "https://example.org/1-001H.jpg") /\
    exists stored,
      Store.of_canon card = Some stored /\
      Store.id stored = "1-001H" /\ Store.cardNumber stored = "1-001H" /\
      Store.set stored = "Opus I".
Proof.
  eexists. split; [reflexivity|]. repeat split.
  eexists. split; [reflexivity|]. repeat split.
Qed.







(** In fetch_fftcg_data.py an absent rarity gives the empty string. *)
Lemma fetch_data_absent_rarity :
  exists card,
    FetchData.normalize [("code", VStr "1-001H"); ("element", VList [])] "Opus I"
    = Ok card /\
    Canon.rarity card = VStr "".
Proof. eexists. split; reflexivity. Qed.

(** ** Order of strings and of sort keys *)

Section OrderFacts.

Lemma ltb_leb (a b : string) : String.ltb a b = negb (String.leb b a).
Proof.
  unfold String.ltb, String.leb. rewrite (String.compare_antisym b a).
  destruct (String.compare a b); reflexivity.
Qed.

Lemma ltb_irrefl (a : string) : String.ltb a a = false.
Proof.
  rewrite ltb_leb. apply negb_false_iff.
  destruct (String.leb_total a a); assumption.
Qed.

Lemma leb_trans (a b c : string) :
  String.leb a b = true -> String.leb b c = true -> String.leb a c = true.
Proof.
  intros H1 H2. apply Is_true_true.
  apply (transitivity (R := String.le) (y := b)); apply Is_true_true; assumption.
Qed.

Lemma ltb_trichotomy (a b : string) :
  String.ltb a b = true \/ a = b \/ String.ltb b a = true.
Proof.
  rewrite !ltb_leb. destruct (String.leb a b) eqn:Hab, (String.leb b a) eqn:Hba; auto.
  right; left. apply String.leb_antisym; assumption.
Qed.

Lemma ltb_trans (a b c : string) :
  String.ltb a b = true -> String.ltb b c = true -> String.ltb a c = true.
Proof.
  rewrite !ltb_leb, !negb_true_iff. intros Hba Hcb.
  destruct (String.leb c a) eqn:Hca; [|reflexivity].
  destruct (String.leb_total a b) as [Hab | Hab]; [|congruence].
  rewrite (leb_trans c a b Hca Hab) in Hcb. discriminate.
Qed.

Lemma key_lt_irrefl (k : string * string) : Store.key_lt k k = false.
Proof. unfold Store.key_lt. rewrite String.eqb_refl. apply ltb_irrefl. Qed.

Lemma key_lt_trans (k1 k2 k3 : string * string) :
  Store.key_lt k1 k2 = true -> Store.key_lt k2 k3 = true -> Store.key_lt k1 k3 = true.
Proof.
  unfold Store.key_lt. destruct k1 as [a1 b1], k2 as [a2 b2], k3 as [a3 b3]. simpl.
  destruct (String.eqb_spec a1 a2) as [->|N12].
  - destruct (String.eqb_spec a2 a3) as [->|N23]; [apply ltb_trans | auto].
  - intros H1. destruct (String.eqb_spec a2 a3) as [->|N23].
    + intros _. destruct (String.eqb_spec a1 a3); [contradiction | exact H1].
    + intros H2. pose proof (ltb_trans _ _ _ H1 H2) as H.
      destruct (String.eqb_spec a1 a3) as [->|]; [|exact H].
      rewrite ltb_irrefl in H. discriminate.
Qed.

Lemma key_lt_trichotomy (k1 k2 : string * string) :
  Store.key_lt k1 k2 = true \/ k1 = k2 \/ Store.key_lt k2 k1 = true.
Proof.
  unfold Store.key_lt. destruct k1 as [a1 b1], k2 as [a2 b2]. simpl.
  rewrite (String.eqb_sym a2 a1).
  destruct (String.eqb_spec a1 a2) as [->|N].
  - destruct (ltb_trichotomy b1 b2) as [H | [-> | H]]; auto.
  - destruct (ltb_trichotomy a1 a2) as [H | [H | H]]; auto.
Qed.

(** Not greater, in the order of the sort, is the lexicographic [<=]. *)
Lemma key_lt_false_lex_le (k1 k2 : string * string) :
  Store.key_lt k2 k1 = false <-> lex_le k1 k2.
Proof.
  unfold Store.key_lt, lex_le. rewrite (String.eqb_sym k2.1 k1.1).
  destruct (String.eqb_spec k1.1 k2.1) as [E|N].
  - rewrite ltb_leb, negb_false_iff. split.
    + intros H. right. split; assumption.
    + intros [H | [_ H]]; [|exact H].
      rewrite E, ltb_irrefl in H. discriminate.
  - split.
    + intros H. left.
      destruct (ltb_trichotomy k1.1 k2.1) as [H' | [H' | H']];
        [exact H' | contradiction | congruence].
    + intros [H | [H _]]; [|contradiction].
      destruct (String.ltb k2.1 k1.1) eqn:H'; [|reflexivity].
      pose proof (ltb_trans _ _ _ H H') as Hc. rewrite ltb_irrefl in Hc. discriminate.
Qed.

Lemma lex_le_trans (k1 k2 k3 : string * string) :
  lex_le k1 k2 -> lex_le k2 k3 -> lex_le k1 k3.
Proof.
  rewrite <- !key_lt_false_lex_le. intros H12 H23.
  destruct (Store.key_lt k3 k1) eqn:H31; [|reflexivity].
  destruct (key_lt_trichotomy k2 k3) as [H | [-> | H]]; [| congruence | congruence].
  rewrite (key_lt_trans _ _ _ H H31) in H12. discriminate.
Qed.

End OrderFacts.

(** ** Removing duplicates and sorting *)

Section MergeFacts.

Lemma find_app_first {A} (p : A -> bool) (l1 l2 : list A) :
  find p (l1 ++ l2) = match find p l1 with
                      | Some x => Some x
                      | None => find p l2
                      end.
Proof.
  induction l1 as [|x l1 IH]; [reflexivity|]. simpl.
  destruct (p x); [reflexivity | exact IH].
Qed.

Lemma has_id_true (i : string) (c : Store.card) :
  has_id i c = true <-> Store.id c = i.
Proof. unfold has_id. apply String.eqb_eq. Qed.

Lemma find_has_id_None (i : string) (l : list Store.card) :
  find (has_id i) l = None <-> i ∉ Store.id <$> l.
Proof.
  induction l as [|c l IH]; simpl.
  - split; [intros _; apply not_elem_of_nil | reflexivity].
  - rewrite not_elem_of_cons. unfold has_id at 1.
    destruct (String.eqb_spec (Store.id c) i) as [E|N].
    + split; [discriminate | intros [H _]; congruence].
    + rewrite IH. split; [intros H; split; [congruence | exact H] | intros [_ H]; exact H].
Qed.

(** With distinct ids, the card a search by id finds is any card of the
    list that has the id. *)
Lemma find_has_id_Some (i : string) (l : list Store.card) (c : Store.card) :
  NoDup (Store.id <$> l) -> c ∈ l -> Store.id c = i ->
  find (has_id i) l = Some c.
Proof.
  induction l as [|d l IH]; simpl; intros Hnd Hin Hi.
  - apply elem_of_nil in Hin. contradiction.
  - apply NoDup_cons in Hnd as [Hd Hnd]. unfold has_id at 1.
    apply elem_of_cons in Hin as [-> | Hin].
    + rewrite Hi, String.eqb_refl. reflexivity.
    + destruct (String.eqb_spec (Store.id d) i) as [E|N]; [|auto].
      exfalso. apply Hd. rewrite E, <- Hi. apply list_elem_of_fmap_2, Hin.
Qed.

Lemma find_has_id_Permutation (i : string) (l l' : list Store.card) :
  l ≡ₚ l' -> NoDup (Store.id <$> l) ->
  find (has_id i) l = find (has_id i) l'.
Proof.
  intros Hp Hnd.
  destruct (find (has_id i) l') as [c|] eqn:E.
  - apply find_some in E as [Hin Hc].
    apply find_has_id_Some; [exact Hnd | | apply has_id_true, Hc].
    rewrite Hp. apply list_elem_of_In, Hin.
  - apply find_has_id_None. apply find_has_id_None in E.
    rewrite Hp. exact E.
Qed.

(** The loop of the dedup, from any state whose set of seen ids is the
    set of ids of the cards kept so far. *)
Lemma dedup_loop (all_cards : list Store.card)
    (seen_ids : gset string) (unique_cards : list Store.card) :
  seen_ids = list_to_set (Store.id <$> unique_cards) ->
  NoDup (Store.id <$> unique_cards) ->
  NoDup (Store.id <$> (foldl Store.dedup_step (seen_ids, unique_cards) all_cards).2) /\
  forall i,
    find (has_id i) (foldl Store.dedup_step (seen_ids, unique_cards) all_cards).2
    = find (has_id i) (unique_cards ++ all_cards).
Proof.
  revert seen_ids unique_cards.
  induction all_cards as [|c all_cards IH]; intros seen_ids unique_cards Hseen Hnd; simpl.
  - rewrite app_nil_r. split; [exact Hnd | reflexivity].
  - unfold Store.dedup_step at 2 4. simpl.
    destruct (decide (Store.id c ∈ seen_ids)) as [Hin | Hnin].
    + destruct (IH seen_ids unique_cards Hseen Hnd) as [IH1 IH2].
      split; [exact IH1|]. intros i. rewrite IH2, !find_app_first.
      destruct (find (has_id i) unique_cards) as [x|] eqn:E; [reflexivity|].
      simpl. unfold has_id at 2.
      destruct (String.eqb_spec (Store.id c) i) as [Ei|]; [|reflexivity].
      exfalso. apply find_has_id_None in E. apply E.
      rewrite <- Ei. rewrite Hseen in Hin. apply elem_of_list_to_set in Hin. exact Hin.
    + destruct (IH ({[Store.id c]} ∪ seen_ids) (unique_cards ++ [c])) as [IH1 IH2].
      * rewrite fmap_app, list_to_set_app_L, Hseen. simpl.
        rewrite (right_id_L ∅ (∪)). apply (comm_L (∪)).
      * rewrite fmap_app. apply NoDup_app. split; [exact Hnd|]. split.
        -- intros x Hx Hx'. apply list_elem_of_singleton in Hx'. subst x.
           apply Hnin. rewrite Hseen. apply elem_of_list_to_set, Hx.
        -- apply NoDup_singleton.
      * split; [exact IH1|]. intros i. rewrite IH2, <- app_assoc. reflexivity.
Qed.

(** The dedup keeps, for every id, its first card, and no other. *)
Lemma dedup_spec (all_cards : list Store.card) :
  NoDup (Store.id <$> Store.dedup all_cards) /\
  forall i, find (has_id i) (Store.dedup all_cards) = find (has_id i) all_cards.
Proof.
  unfold Store.dedup.
  destruct (dedup_loop all_cards ∅ []) as [H1 H2];
    [reflexivity | apply NoDup_nil_2 |].
  split; [exact H1 | exact H2].
Qed.

Lemma insert_Permutation (c : Store.card) (l : list Store.card) :
  Store.insert c l ≡ₚ c :: l.
Proof.
  induction l as [|d l IH]; simpl; [reflexivity|].
  destruct (Store.key_lt (Store.key d) (Store.key c)); [|reflexivity].
  rewrite IH. apply Permutation_swap.
Qed.

Lemma sort_Permutation (l : list Store.card) : Store.sort l ≡ₚ l.
Proof.
  induction l as [|c l IH]; simpl; [reflexivity|].
  rewrite insert_Permutation, IH. reflexivity.
Qed.

Lemma insert_sorted (c : Store.card) (l : list Store.card) :
  StronglySorted key_le l -> StronglySorted key_le (Store.insert c l).
Proof.
  induction 1 as [|d l Hs IH Hd]; simpl.
  - constructor; constructor.
  - destruct (Store.key_lt (Store.key d) (Store.key c)) eqn:E.
    + constructor; [exact IH|].
      apply Forall_forall. intros x Hx.
      rewrite insert_Permutation in Hx. apply elem_of_cons in Hx as [-> | Hx].
      * apply key_lt_false_lex_le.
        destruct (Store.key_lt (Store.key c) (Store.key d)) eqn:E'; [|reflexivity].
        pose proof (key_lt_trans _ _ _ E E') as Hc.
        rewrite key_lt_irrefl in Hc. discriminate.
      * rewrite Forall_forall in Hd. apply Hd, Hx.
    + assert (Hcd : key_le c d) by (apply key_lt_false_lex_le, E).
      constructor; [constructor; assumption|].
      constructor; [exact Hcd|].
      eapply Forall_impl; [exact Hd|]. intros x Hx.
      eapply lex_le_trans; eassumption.
Qed.

Lemma sort_sorted (l : list Store.card) : StronglySorted key_le (Store.sort l).
Proof.
  induction l as [|c l IH]; simpl; [constructor | apply insert_sorted, IH].
Qed.

(** A change of the cards that keeps ids and sort keys commutes with
    the dedup and with the sort. *)
Lemma dedup_loop_fmap (f : Store.card -> Store.card) (all_cards : list Store.card)
    (seen_ids : gset string) (unique_cards : list Store.card) :
  (forall c, Store.id (f c) = Store.id c) ->
  foldl Store.dedup_step (seen_ids, f <$> unique_cards) (f <$> all_cards) =
  ((foldl Store.dedup_step (seen_ids, unique_cards) all_cards).1,
   f <$> (foldl Store.dedup_step (seen_ids, unique_cards) all_cards).2).
Proof.
  intros Hf. revert seen_ids unique_cards.
  induction all_cards as [|c all_cards IH]; intros seen_ids unique_cards; simpl.
  - reflexivity.
  - unfold Store.dedup_step at 2 4 6. simpl. rewrite Hf.
    destruct (decide (Store.id c ∈ seen_ids)); [apply IH|].
    rewrite <- IH, fmap_app. reflexivity.
Qed.

Lemma dedup_fmap (f : Store.card -> Store.card) (all_cards : list Store.card) :
  (forall c, Store.id (f c) = Store.id c) ->
  Store.dedup (f <$> all_cards) = f <$> Store.dedup all_cards.
Proof.
  intros Hf. unfold Store.dedup.
  change (@nil Store.card) with (f <$> @nil Store.card) at 1.
  rewrite (dedup_loop_fmap f all_cards ∅ [] Hf). reflexivity.
Qed.

Lemma insert_fmap (f : Store.card -> Store.card) (c : Store.card) (l : list Store.card) :
  (forall c, Store.key (f c) = Store.key c) ->
  Store.insert (f c) (f <$> l) = f <$> Store.insert c l.
Proof.
  intros Hf. induction l as [|d l IH]; simpl; [reflexivity|].
  rewrite !Hf. destruct (Store.key_lt (Store.key d) (Store.key c)); simpl.
  - f_equal. exact IH.
  - reflexivity.
Qed.

Lemma sort_fmap (f : Store.card -> Store.card) (l : list Store.card) :
  (forall c, Store.key (f c) = Store.key c) ->
  Store.sort (f <$> l) = f <$> Store.sort l.
Proof.
  intros Hf. induction l as [|c l IH]; [reflexivity|].
  change (Store.insert (f c) (Store.sort (f <$> l)) = f <$> Store.insert c (Store.sort l)).
  rewrite IH. apply insert_fmap, Hf.
Qed.

Lemma merge_NoDup (existing_cards new_cards : list Store.card) :
  NoDup (Store.id <$> Store.merge existing_cards new_cards).
Proof.
  unfold Store.merge. rewrite sort_Permutation. apply dedup_spec.
Qed.

Lemma merge_find (existing_cards new_cards : list Store.card) (i : string) :
  find (has_id i) (Store.merge existing_cards new_cards) =
  find (has_id i) (existing_cards ++ new_cards).
Proof.
  unfold Store.merge.
  destruct (dedup_spec (existing_cards ++ new_cards)) as [Hnd Hfind].
  rewrite <- Hfind. symmetry. apply find_has_id_Permutation; [|exact Hnd].
  symmetry. apply sort_Permutation.
Qed.

End MergeFacts.

(** *** The sort is the stable sort

    Cards with the same key keep their order, and a sorted list with
    that property is unique: every stable sort by the key returns
    [Store.sort]. *)

Section StableSort.

#[local] Abbreviation with_key k := (fun c : Store.card => Store.key c = k).

Lemma filter_key_insert (k : string * string) (c : Store.card) (l : list Store.card) :
  filter (with_key k) (Store.insert c l) = filter (with_key k) (c :: l).
Proof.
  induction l as [|d l IH]; simpl; [reflexivity|].
  destruct (Store.key_lt (Store.key d) (Store.key c)) eqn:E; [|reflexivity].
  rewrite (filter_cons _ d), IH, !(filter_cons _ c), (filter_cons _ d).
  destruct (decide (Store.key d = k)) as [Hd|]; [|reflexivity].
  destruct (decide (Store.key c = k)) as [Hc|]; [|reflexivity].
  rewrite Hd, Hc, key_lt_irrefl in E. discriminate.
Qed.

Lemma sort_stable (k : string * string) (l : list Store.card) :
  filter (with_key k) (Store.sort l) = filter (with_key k) l.
Proof.
  induction l as [|c l IH]; [reflexivity|].
  change (Store.sort (c :: l)) with (Store.insert c (Store.sort l)).
  rewrite filter_key_insert, !(filter_cons _ c), IH. reflexivity.
Qed.

Lemma lex_le_antisym (k1 k2 : string * string) :
  lex_le k1 k2 -> lex_le k2 k1 -> k1 = k2.
Proof.
  rewrite <- !key_lt_false_lex_le. intros H21 H12.
  destruct (key_lt_trichotomy k1 k2) as [H | [H | H]]; congruence.
Qed.

Lemma sorted_stable_unique (l1 l2 : list Store.card) :
  StronglySorted key_le l1 -> StronglySorted key_le l2 ->
  (forall k, filter (with_key k) l1 = filter (with_key k) l2) ->
  l1 = l2.
Proof.
  intros Hs1. revert l2. induction Hs1 as [|x l1 Hs1 IH Hx]; intros l2 Hs2 Hf.
  - destruct l2 as [|y l2]; [reflexivity|].
    specialize (Hf (Store.key y)). rewrite filter_nil, filter_cons_True in Hf by reflexivity.
    discriminate.
  - destruct Hs2 as [|y l2 Hs2 Hy].
    { specialize (Hf (Store.key x)). rewrite filter_nil, filter_cons_True in Hf by reflexivity.
      discriminate. }
    assert (Hxy : Store.key x = Store.key y).
    { apply lex_le_antisym.
      - assert (Hin : y ∈ x :: l1).
        { apply (list_elem_of_filter (with_key (Store.key y))). rewrite Hf.
          apply list_elem_of_filter. split; [reflexivity | apply list_elem_of_here]. }
        apply elem_of_cons in Hin as [-> | Hin].
        + apply key_lt_false_lex_le, key_lt_irrefl.
        + rewrite Forall_forall in Hx. apply Hx, Hin.
      - assert (Hin : x ∈ y :: l2).
        { apply (list_elem_of_filter (with_key (Store.key x))). rewrite <- Hf.
          apply list_elem_of_filter. split; [reflexivity | apply list_elem_of_here]. }
        apply elem_of_cons in Hin as [-> | Hin].
        + apply key_lt_false_lex_le, key_lt_irrefl.
        + rewrite Forall_forall in Hy. apply Hy, Hin. }
    pose proof (Hf (Store.key x)) as Hk.
    rewrite filter_cons_True in Hk by reflexivity.
    rewrite filter_cons_True in Hk by (symmetry; exact Hxy).
    injection Hk as <- Hk. f_equal. apply IH; [exact Hs2|].
    intros k. specialize (Hf k). rewrite !(filter_cons _ x) in Hf.
    destruct (decide (Store.key x = k)); [|exact Hf].
    injection Hf as Hf. exact Hf.
Qed.

Lemma stable_sort_unique (l sorted : list Store.card) :
  StronglySorted key_le sorted ->
  (forall k, filter (with_key k) sorted = filter (with_key k) l) ->
  sorted = Store.sort l.
Proof.
  intros Hs Hf. apply sorted_stable_unique; [exact Hs | apply sort_sorted |].
  intros k. rewrite Hf, sort_stable. reflexivity.
Qed.

End StableSort.

Section CollectionFacts.

Variable fetch_set_data : string -> list Store.card.

Lemma collect_loop (sets : list string) (all_cards : list Store.card) :
  foldl (fun all_cards set_name =>
           match fetch_set_data set_name with
           | [] => all_cards
           | _ => all_cards ++ fetch_set_data set_name
           end) all_cards sets
  = all_cards ++ concat (fetch_set_data <$> sets).
Proof.
  revert all_cards. induction sets as [|s sets IH]; intros all_cards; simpl.
  - rewrite app_nil_r. reflexivity.
  - rewrite IH. destruct (fetch_set_data s) as [|c cs]; simpl.
    + reflexivity.
    + rewrite <- app_assoc. reflexivity.
Qed.

(** The loop over the sets gathers the cards of all sets, in order. *)
Lemma collect_concat (sets : list string) :
  Store.collect fetch_set_data sets = concat (fetch_set_data <$> sets).
Proof. unfold Store.collect. apply collect_loop. Qed.

End CollectionFacts.

Lemma StronglySorted_impl_elem {A} (R R' : A -> A -> Prop) (l : list A) :
  (forall x y, x ∈ l -> y ∈ l -> R x y -> R' x y) ->
  StronglySorted R l -> StronglySorted R' l.
Proof.
  intros H Hs. induction Hs as [|x l Hs IH Hx]; constructor.
  - apply IH. intros a b Ha Hb. apply H; apply elem_of_cons; right; assumption.
  - apply Forall_forall. intros y Hy. apply H.
    + apply elem_of_cons; left; reflexivity.
    + apply elem_of_cons; right; exact Hy.
    + rewrite Forall_forall in Hx. apply Hx, Hy.
Qed.

(** The merged cards are the first cards of their ids. *)
Lemma merge_elem_of (existing_cards new_cards : list Store.card) (c : Store.card) :
  c ∈ Store.merge existing_cards new_cards <->
  find (has_id (Store.id c)) (existing_cards ++ new_cards) = Some c.
Proof.
  rewrite <- merge_find. split.
  - intros Hin. apply find_has_id_Some; [apply merge_NoDup | exact Hin | reflexivity].
  - intros H. apply find_some in H as [H _]. apply list_elem_of_In, H.
Qed.

(** C3.  For every two sequences of cards, the persisted one first and
    the fetched one second, the merge returns cards with pairwise
    distinct ids; for every id the card kept is its first occurrence in
    the concatenation, hence the persisted card whenever the persisted
    sequence has the id; the result is sorted in ascending lexicographic
    order of (set name, card number), which is (set name, id) on
    canonical cards, whose card number is their id; and no other field
    takes part: changing other fields of the cards changes the result
    by the same change. *)
Theorem C3_merge_dedup_sorted (existing_cards new_cards : list Store.card) :
  NoDup (Store.id <$> Store.merge existing_cards new_cards) /\
  (forall i,
     find (has_id i) (Store.merge existing_cards new_cards)
     = find (has_id i) (existing_cards ++ new_cards)) /\
  (forall i c,
     find (has_id i) existing_cards = Some c ->
     find (has_id i) (Store.merge existing_cards new_cards) = Some c) /\
  (forall c,
     c ∈ Store.merge existing_cards new_cards <->
     find (has_id (Store.id c)) (existing_cards ++ new_cards) = Some c) /\
  StronglySorted key_le (Store.merge existing_cards new_cards) /\
  (Forall (fun c => Store.cardNumber c = Store.id c) (existing_cards ++ new_cards) ->
   StronglySorted set_id_le (Store.merge existing_cards new_cards)) /\
  (forall f : Store.card -> Store.card,
     (forall c, Store.id (f c) = Store.id c /\ Store.set (f c) = Store.set c /\
                Store.cardNumber (f c) = Store.cardNumber c) ->
     Store.merge (f <$> existing_cards) (f <$> new_cards)
     = f <$> Store.merge existing_cards new_cards).
Proof.
  split; [apply merge_NoDup|].
  split; [apply merge_find|].
  split.
  { intros i c H. rewrite merge_find, find_app_first, H. reflexivity. }
  split; [apply merge_elem_of|].
  split; [apply sort_sorted|].
  split.
  - intros Hcanon. eapply StronglySorted_impl_elem; [|apply sort_sorted].
    intros x y Hx Hy. unfold key_le, set_id_le, Store.key.
    rewrite Forall_forall in Hcanon.
    apply merge_elem_of, find_some in Hx as [Hx _].
    apply merge_elem_of, find_some in Hy as [Hy _].
    rewrite (Hcanon x), (Hcanon y) by (apply list_elem_of_In; assumption).
    trivial.
  - intros f Hf. unfold Store.merge.
    rewrite <- fmap_app, dedup_fmap, sort_fmap; [reflexivity | | apply Hf].
    intros c. unfold Store.key. destruct (Hf c) as (_ & -> & ->). reflexivity.
Qed.

(** Two collections that share the id 1-001H with different names: the
    persisted card is kept, and the result is in the order of the sets. *)
Example merge_keeps_existing :
  Store.merge
    [sample_card "2-005C" "Lenna" "Opus II" None;
     sample_card "1-001H" "Auron" "Opus I" None]
    [sample_card "1-001H" "Auron (reprint)" "Opus I" None;
     sample_card "1-002R" "Ifrit" "Opus I" None]
  = [sample_card "1-001H" "Auron" "Opus I" None;
     sample_card "1-002R" "Ifrit" "Opus I" None;
     sample_card "2-005C" "Lenna" "Opus II" None].
Proof. vm_compute. reflexivity. Qed.




(** ** The image mapping *)

Section MappingFacts.

(** A resolver that computes [resolved]: both scripts have one. *)
Variable materia_hunter_url : string -> result (option string).
Hypothesis materia_hunter_url_resolved :
  forall card_id, materia_hunter_url card_id = Ok (resolved card_id).

Lemma resolved_nonempty (card_id url : string) :
  resolved card_id = Some url -> String.eqb url "" = false.
Proof.
  unfold resolved. destruct (opus_match card_id); [|discriminate].
  destruct (in_range _); [|discriminate]. intros [= <-]. reflexivity.
Qed.

(** One turn of the loop follows the precedence rule. *)
Lemma mapping_step_spec (existing_mapping new_mappings : gmap string dict)
    (c : Store.card) :
  Store.mapping_step materia_hunter_url existing_mapping new_mappings c
  = Ok (add_entry existing_mapping new_mappings c).
Proof.
  assert (Hfresh :
    Store.resolve_entry materia_hunter_url new_mappings c
    = Ok (match resolved (Store.id c), Store.image c with
          | Some url, _ =>
              <[Store.id c := Store.new_entry (Store.name c) (VStr url) "materia-hunter"]>
                new_mappings
          | None, Some img =>
              <[Store.id c := Store.new_entry (Store.name c) img "square-enix"]>
                new_mappings
          | None, None => new_mappings
          end)).
  { unfold Store.resolve_entry. rewrite materia_hunter_url_resolved. simpl.
    destruct (resolved (Store.id c)) as [url|] eqn:E.
    - rewrite (resolved_nonempty _ _ E). reflexivity.
    - destruct (Store.image c); reflexivity. }
  unfold Store.mapping_step, add_entry, spec_entry.
  destruct (existing_mapping !! Store.id c) as [e|].
  - destruct (Store.is_materia_hunter e); [reflexivity|].
    rewrite Hfresh. destruct (resolved (Store.id c)), (Store.image c); reflexivity.
  - rewrite Hfresh. destruct (resolved (Store.id c)), (Store.image c); reflexivity.
Qed.

Lemma mapping_loop_spec (existing_mapping new_mappings : gmap string dict)
    (cards : list Store.card) :
  Store.mapping_loop materia_hunter_url existing_mapping new_mappings cards
  = Ok (foldl (add_entry existing_mapping) new_mappings cards).
Proof.
  revert new_mappings. induction cards as [|c cards IH]; intros new_mappings; simpl.
  - reflexivity.
  - rewrite mapping_step_spec. simpl. apply IH.
Qed.

(** The run reads the cards, starts from the persisted mapping or from
    an empty one, and rewrites the mapping. *)
Lemma update_image_mappings_spec (fs : Store.files) (cards : list Store.card) :
  Store.cards_file fs = Some cards ->
  Store.update_image_mappings materia_hunter_url fs
  = (Store.Returned,
     Store.write_mapping
       (foldl (add_entry (default ∅ (Store.mapping_file fs))) ∅ cards) fs).
Proof.
  intros H. unfold Store.update_image_mappings. rewrite H, mapping_loop_spec.
  reflexivity.
Qed.

End MappingFacts.





(** The two scripts that update the mapping: what a run does. *)
Lemma image_runs_spec (fs : Store.files) (cards : list Store.card)
    (run : Store.files -> Store.outcome * Store.files) :
  run = ManagerMain.update_image_mappings \/ run = UpdateImagesMain.main ->
  Store.cards_file fs = Some cards ->
  run fs = (Store.Returned,
            Store.write_mapping
              (foldl (add_entry (default ∅ (Store.mapping_file fs))) ∅ cards) fs).
Proof.
  intros [-> | ->] H.
  - apply update_image_mappings_spec; [apply get_materia_hunter_url_resolved | exact H].
  - apply update_image_mappings_spec; [apply generate_materia_hunter_url_resolved | exact H].
Qed.



(** The four cases of the rule on the sample files: the kept entry, the
    entry of the primary source, and the id that is left out. *)
Example sample_mapping_update :
  exists new_mappings,
    ManagerMain.update_image_mappings sample_files
    = (Store.Returned, Store.write_mapping new_mappings sample_files) /\
    new_mappings !! "1-001H" = sample_mapping !! "1-001H" /\
    new_mappings !! "20-001C"
    = Some (Store.new_entry (VStr "Cloud")
              (VStr "https://fftcg.square-enix-games.com/20-001C.jpg") "square-enix") /\
    new_mappings !! "PR-001" = None /\
    new_mappings !! "9-999L" = None.
Proof.
  eexists. split; [apply (image_runs_spec _ sample_cards); [left|]; reflexivity|].
  repeat split; vm_compute; reflexivity.
Qed.



(** C9, as the scripts have it.  When the card file is missing, the
    merge of the cards ends without writing, and so does the update of
    the image mapping, which an exception ends; the manager asked to
    fetch missing sets writes nothing either.  When only the mapping
    file is missing, the update of the image mapping goes on from an
    empty mapping and writes the result, as it does when the persisted
    mapping is empty. *)
Theorem C9_missing_files (fetch_set_data : string -> list Store.card)
    (set_name : string) (sets : list string) (fs : Store.files) :
  (Store.cards_file fs = None ->
     FetchMissingMain.main fetch_set_data fs = (Store.Returned, fs) /\
     Store.fetch_missing_sets fetch_set_data (set_name :: sets) fs = (Store.Returned, fs) /\
     ManagerMain.update_image_mappings fs = (Store.Uncaught FileNotFoundError, fs) /\
     UpdateImagesMain.main fs = (Store.Uncaught FileNotFoundError, fs) /\
     ManagerMain.main fetch_set_data
       {| ManagerMain.fetch_all := false;
          ManagerMain.fetch_missing := Some (set_name :: sets);
          ManagerMain.update_images := false |} fs
     = (Store.Uncaught FileNotFoundError, fs)) /\
  (forall cards run,
     run = ManagerMain.update_image_mappings \/ run = UpdateImagesMain.main ->
     Store.cards_file fs = Some cards ->
     Store.mapping_file fs = None ->
     run fs = (Store.Returned,
               Store.write_mapping (foldl (add_entry ∅) ∅ cards) fs) /\
     (run (Store.write_mapping ∅ fs)).2 = (run fs).2).
Proof.
  split.
  - intros H.
    assert (H1 : forall sets', Store.fetch_missing_sets fetch_set_data sets' fs
                               = (Store.Returned, fs)).
    { intros sets'. unfold Store.fetch_missing_sets. rewrite H. reflexivity. }
    assert (H2 : forall r, Store.update_image_mappings r fs
                           = (Store.Uncaught FileNotFoundError, fs)).
    { intros r. unfold Store.update_image_mappings. rewrite H. reflexivity. }
    repeat split; try apply H1; try apply H2.
    unfold ManagerMain.main, Store.and_then. simpl. rewrite H1. apply H2.
  - intros cards run Hrun Hcards Hmap.
    pose proof (image_runs_spec fs cards run Hrun Hcards) as E.
    pose proof (image_runs_spec (Store.write_mapping ∅ fs) cards run Hrun Hcards) as E'.
    rewrite Hmap in E. simpl in E, E'. split; [exact E|].
    rewrite E, E'. reflexivity.
Qed.

Lemma C9_missing_files_witness :
  FetchMissingMain.main reprint_upstream no_files = (Store.Returned, no_files) /\
  Store.fetch_missing_sets reprint_upstream ["Legacy Collection"] no_files
  = (Store.Returned, no_files) /\
  ManagerMain.update_image_mappings no_files
  = (Store.Uncaught FileNotFoundError, no_files) /\
  UpdateImagesMain.main no_files = (Store.Uncaught FileNotFoundError, no_files) /\
  ManagerMain.main reprint_upstream
    {| ManagerMain.fetch_all := false;
       ManagerMain.fetch_missing := Some ["Legacy Collection"];
       ManagerMain.update_images := false |} no_files
  = (Store.Uncaught FileNotFoundError, no_files).
Proof.
  exact (proj1 (C9_missing_files reprint_upstream "Legacy Collection" [] no_files)
           eq_refl).
Defined.

(** C9 fails for the image mapping: with the card file in place and the
    mapping file missing, the run returns and writes a mapping. *)
Lemma C9_mapping_update_goes_on_without_file :
  exists new_mappings,
    ManagerMain.update_image_mappings
      {| Store.cards_file := Some sample_cards; Store.mapping_file := None |}
    = (Store.Returned,
       {| Store.cards_file := Some sample_cards;
          Store.mapping_file := Some new_mappings |}) /\
    new_mappings !! "20-001C"
    = Some (Store.new_entry (VStr "Cloud")
              (VStr "https://fftcg.square-enix-games.com/20-001C.jpg") "square-enix").
Proof.
  eexists. split.
  - rewrite (image_runs_spec
               {| Store.cards_file := Some sample_cards; Store.mapping_file := None |}
               sample_cards ManagerMain.update_image_mappings
               (or_introl eq_refl) eq_refl).
    reflexivity.
  - vm_compute. reflexivity.
Qed.

(** * Further properties of the scripts *)

(** ** Normalisation *)

Section MoreNormalizerFacts.

Lemma to_lower_not_upper (c : ascii) : is_upper (to_lower c) = false.
Proof.
  unfold to_lower. destruct (is_upper c) eqn:Hc; [|exact Hc].
  unfold is_upper, code in *. rewrite N_ascii_embedding; char_cases.
Qed.

Lemma lower_no_upper (s : string) :
  sall (fun c => negb (is_upper c)) (lower s) = true.
Proof.
  induction s as [|c s IH]; [reflexivity|]. simpl.
  rewrite to_lower_not_upper. exact IH.
Qed.

Lemma type_table_lower (s t : string) : assoc s type_table = Some t -> t = lower s.
Proof.
  unfold type_table. simpl.
  repeat match goal with
    | |- context [String.eqb s ?k] =>
        destruct (String.eqb_spec s k) as [->|]; [intros [= <-]; reflexivity|]
    end.
  discriminate.
Qed.

Lemma element_table_no_upper (s t : string) :
  assoc s element_table = Some t -> sall (fun c => negb (is_upper c)) t = true.
Proof.
  unfold element_table. simpl.
  repeat match goal with
    | |- context [String.eqb s ?k] =>
        destruct (String.eqb s k); [intros [= <-]; reflexivity|]
    end.
  discriminate.
Qed.

Lemma get_or_lower_element_no_upper (x : value) (r : string) :
  get_or_lower element_table x = Ok r -> sall (fun c => negb (is_upper c)) r = true.
Proof.
  destruct x; try discriminate. unfold get_or_lower.
  destruct (assoc s element_table) as [t|] eqn:E; intros [= <-].
  - exact (element_table_no_upper s t E).
  - apply lower_no_upper.
Qed.

Lemma get_or_lower_type (s : string) : get_or_lower type_table (VStr s) = Ok (lower s).
Proof.
  unfold get_or_lower. destruct (assoc s type_table) as [t|] eqn:E; [|reflexivity].
  rewrite (type_table_lower _ _ E). reflexivity.
Qed.

End MoreNormalizerFacts.


Section NormalizerInversion.

(** What a successful run of the normaliser of fetch_fftcg_data.py
    tells about the record and about the card. *)
Lemma fetch_data_normalize_inv (card_data : dict) (set_name : string)
    (card : Canon.card) :
  FetchData.normalize card_data set_name = Ok card ->
  exists code e element ty cost power rarity b,
    find_key "code" card_data = Some code /\
    find_key "element" card_data = Some e /\
    (if truthy e then x <- first e ;; FetchData.element_mapping x
     else Ok "unknown") = Ok element /\
    FetchData.type_mapping (get card_data "type_en" (VStr "")) = Ok ty /\
    FetchData.digits_field card_data "cost" = Ok cost /\
    FetchData.digits_field card_data "power" = Ok power /\
    FetchData.rarity_mapping (get card_data "rarity" (VStr "")) = Ok rarity /\
    fetch_data_has_image card_data = Ok b /\
    (if b then exists img, Manager.full_image card_data = Ok img /\
                           Canon.image card = Some img
     else Canon.image card = None) /\
    Canon.id card = code /\ Canon.cardNumber card = code /\
    Canon.name card = get card_data "name_en" (VStr "") /\
    Canon.element card = element /\ Canon.type card = ty /\
    Canon.cost card = default 0 cost /\ Canon.power card = power /\
    Canon.job card = get card_data "job_en" (VStr "") /\
    Canon.category card = get card_data "category_1" (VStr "") /\
    Canon.rarity card = VStr rarity /\
    Canon.text card = get card_data "text_en" (VStr "") /\
    Canon.set card = set_name /\ Canon.source card = "square-api" /\
    Canon.hasRealImage card = true.
Proof.
  unfold FetchData.normalize. fold (fetch_data_has_image card_data).
  unfold getitem at 1 2 3 4.
  destruct (find_key "code" card_data) as [code|]; [|discriminate].
  destruct (find_key "element" card_data) as [e|]; [|discriminate].
  cbn [bind].
  destruct (if truthy e then _ else _) as [element|] eqn:Ee; [|discriminate].
  cbn [bind].
  destruct (FetchData.type_mapping _) as [ty|]; [|discriminate]. cbn [bind].
  destruct (FetchData.digits_field card_data "cost") as [cost|]; [|discriminate].
  cbn [bind].
  destruct (FetchData.digits_field card_data "power") as [power|]; [|discriminate].
  cbn [bind].
  destruct (FetchData.rarity_mapping _) as [rarity|]; [|discriminate]. cbn [bind].
  destruct (fetch_data_has_image card_data) as [b|]; [|discriminate]. cbn [bind].
  intros H.
  exists code, e, element, ty, cost, power, rarity, b.
  assert (He : (if truthy e then x <- first e;; FetchData.element_mapping x
                else Ok "unknown") = Ok element).
  { destruct (truthy e); exact Ee. }
  destruct b.
  - destruct (Manager.full_image card_data) as [img|]; [|discriminate].
    cbn [bind] in H. injection H as <-.
    repeat split; try assumption. exists img. split; reflexivity.
  - injection H as <-. repeat split; assumption.
Qed.

(** The same for [build_card] of the manager. *)
Lemma build_card_inv (rarity_of : dict -> string) (card_data : dict)
    (set_name : string) (card : Canon.card) :
  Manager.build_card rarity_of card_data set_name = Ok card ->
  exists b,
    Manager.card_element card_data = Ok (Canon.element card) /\
    Manager.type_mapping (get card_data "type_en" (VStr "")) = Ok (Canon.type card) /\
    Manager.has_full_image card_data = Ok b /\
    (if b then exists img, Manager.full_image card_data = Ok img /\
                           Canon.image card = Some img
     else Canon.image card = None) /\
    Canon.name card = get card_data "name_en" (VStr "") /\
    Canon.job card = get card_data "job_en" (VStr "") /\
    Canon.category card = get card_data "category_1" (VStr "") /\
    Canon.text card = get card_data "text_en" (VStr "") /\
    Canon.hasRealImage card = true.
Proof.
  unfold Manager.build_card.
  destruct (Manager.card_element card_data) as [e|]; [|discriminate].
  destruct (Manager.type_mapping _) as [t|]; [|discriminate].
  cbn [bind]. destruct (Manager.has_full_image card_data) as [b|]; [|discriminate].
  cbn [bind]. exists b. destruct b.
  - destruct (Manager.full_image card_data) as [img|]; [|discriminate].
    cbn [bind] in H. injection H as <-.
    repeat split. exists img. split; reflexivity.
  - injection H as <-. repeat split.
Qed.

End NormalizerInversion.

Section CardFieldFacts.

Lemma element_mapping_no_upper (x : value) (e : string) :
  Manager.element_mapping x = Ok e -> sall (fun c => negb (is_upper c)) e = true.
Proof.
  unfold Manager.element_mapping. destruct (negb (truthy x)).
  - intros [= <-]. reflexivity.
  - apply get_or_lower_element_no_upper.
Qed.

Lemma card_element_no_upper (card_data : dict) (e : string) :
  Manager.card_element card_data = Ok e -> sall (fun c => negb (is_upper c)) e = true.
Proof.
  unfold Manager.card_element.
  destruct (truthy _); [|intros [= <-]; reflexivity].
  destruct (getitem card_data "element") as [v|]; [|discriminate]. cbn [bind].
  destruct (len v) as [n|]; [|discriminate]. cbn [bind].
  destruct (0 <? n)%nat; [|intros [= <-]; reflexivity].
  destruct (first v) as [x|]; [|discriminate]. cbn [bind].
  apply element_mapping_no_upper.
Qed.

Lemma type_mapping_no_upper (v : value) (t : string) :
  Manager.type_mapping v = Ok t -> sall (fun c => negb (is_upper c)) t = true.
Proof.
  unfold Manager.type_mapping.
  destruct (negb (truthy v)); [intros [= <-]; reflexivity|].
  destruct v; try discriminate. rewrite get_or_lower_type.
  intros [= <-]. apply lower_no_upper.
Qed.

End CardFieldFacts.

Section ExtractFacts.

Variable json_loads : string -> result value.

Lemma convert_to_app_format_inv (square_card : dict) (set_name : string)
    (card : Canon.card) :
  Extract.convert_to_app_format json_loads square_card set_name = Ok card ->
  exists x ty,
    get_or_lower element_table x = Ok (Canon.element card) /\
    Canon.type card = lower ty /\
    Canon.image card = Some (Extract.image_url json_loads square_card) /\
    int (get square_card "cost" (VInt 0)) = Ok (Canon.cost card) /\
    Canon.set card = set_name /\
    Canon.cardNumber card = Canon.id card.
Proof.
  unfold Extract.convert_to_app_format.
  destruct (if Extract.is_list _ then _ else _) as [x|]; [|discriminate].
  cbn [bind]. destruct (get_or_lower element_table x) as [el|] eqn:Eel; [|discriminate].
  cbn [bind]. destruct (as_str _) as [ty|]; [|discriminate].
  cbn [bind]. destruct (int _) as [cost|]; [|discriminate].
  cbn [bind]. destruct (if truthy _ then _ else _) as [power|]; [|discriminate].
  cbn [bind]. intros [= <-]. exists x, ty. repeat split. exact Eel.
Qed.


End ExtractFacts.

(** X2.  In every card that one of the four normalisers builds, the
    element and the type have no capital letter. *)
Theorem element_and_type_have_no_capitals (card_data : dict) (set_name : string)
    (card : Canon.card) :
  Manager.normalize card_data set_name = Ok card \/
  FetchMissing.normalize card_data set_name = Ok card \/
  FetchData.normalize card_data set_name = Ok card \/
  (exists json_loads,
     Extract.convert_to_app_format json_loads card_data set_name = Ok card) ->
  sall (fun c => negb (is_upper c)) (Canon.element card) = true /\
  sall (fun c => negb (is_upper c)) (Canon.type card) = true.
Proof.
  intros [H | [H | [H | [json_loads H]]]].
  - apply build_card_inv in H as (b & He & Ht & _).
    split; [eapply card_element_no_upper, He | eapply type_mapping_no_upper, Ht].
  - apply build_card_inv in H as (b & He & Ht & _).
    split; [eapply card_element_no_upper, He | eapply type_mapping_no_upper, Ht].
  - apply fetch_data_normalize_inv in H
      as (code & e & element & ty & cost & power & rarity & b & _ & _ & He & Ht & H).
    destruct H as (_ & _ & _ & _ & _ & _ & _ & _ & -> & -> & _). split.
    + destruct (truthy e); [|injection He as <-; reflexivity].
      destruct (first e) as [x|]; [|discriminate]. cbn [bind] in He.
      eapply get_or_lower_element_no_upper, He.
    + unfold FetchData.type_mapping in Ht.
      destruct (get card_data "type_en" (VStr "")); try discriminate.
      rewrite get_or_lower_type in Ht. injection Ht as <-. apply lower_no_upper.
  - apply convert_to_app_format_inv in H as (x & ty & He & -> & _). split.
    + eapply get_or_lower_element_no_upper, He.
    + apply lower_no_upper.
Qed.

Lemma element_and_type_have_no_capitals_witness :
  exists card,
    Manager.normalize [("element", VList [VStr "WIND"]); ("type_en", VStr "Forward")]
      "Opus I" = Ok card /\
    sall (fun c => negb (is_upper c)) (Canon.element card) = true /\
    sall (fun c => negb (is_upper c)) (Canon.type card) = true.
Proof.
  eexists. split; [reflexivity|].
  exact (element_and_type_have_no_capitals
           [("element", VList [VStr "WIND"]); ("type_en", VStr "Forward")] "Opus I" _
           (or_introl eq_refl)).
Defined.

Section CostAndPowerFacts.

Lemma digits_value_nonneg (v : value) (z : Z) : digits_value v = Some z -> 0 <= z.
Proof.
  destruct v; try discriminate; simpl.
  - destruct (Z.ltb_spec 0 z0); [intros [= <-]; lia | discriminate].
  - destruct (isdigit s); [|discriminate]. intros [= <-].
    apply digits_val_nonneg. lia.
Qed.

(** The conditional of fetch_fftcg_data.py for cost and power: the field
    is a string, and the result its digits, if it is made of digits. *)
Lemma digits_field_spec (card_data : dict) (k : string) (o : option Z) :
  FetchData.digits_field card_data k = Ok o ->
  exists s, get card_data k (VStr "") = VStr s /\
            o = (if isdigit s then Some (digits_val 0 s) else None).
Proof.
  unfold FetchData.digits_field, get.
  destruct (find_key k card_data) as [v|].
  - destruct v; try discriminate. cbn [as_str bind].
    intros H. exists s. split; [reflexivity|].
    destruct (isdigit s) eqn:E; [|injection H as <-; reflexivity].
    rewrite (int_of_digits s E) in H. cbn [bind] in H. injection H as <-. reflexivity.
  - cbn [as_str bind]. intros H. exists "". split; [reflexivity|].
    simpl in H. injection H as <-. reflexivity.
Qed.

Lemma digits_field_safe_int (card_data : dict) (k : string) (o : option Z) :
  FetchData.digits_field card_data k = Ok o ->
  default 0 o = Manager.safe_int (get card_data k VNone) 0.
Proof.
  intros H. rewrite safe_int_digits_value. revert H.
  unfold FetchData.digits_field, get.
  destruct (find_key k card_data) as [v|].
  - destruct v; try discriminate. cbn [as_str bind]. unfold digits_value.
    destruct (isdigit s) eqn:E.
    + rewrite (int_of_digits s E). cbn [bind]. intros [= <-]. reflexivity.
    + intros [= <-]. reflexivity.
  - cbn [as_str bind]. intros H. simpl in H. injection H as <-. reflexivity.
Qed.

End CostAndPowerFacts.

(** X3.  In every card that the manager, fetch_missing_sets.py or
    fetch_fftcg_data.py builds, the cost is not negative, and neither is
    the power when the card has one. *)
Theorem cost_and_power_are_not_negative (card_data : dict) (set_name : string)
    (card : Canon.card) :
  Manager.normalize card_data set_name = Ok card \/
  FetchMissing.normalize card_data set_name = Ok card \/
  FetchData.normalize card_data set_name = Ok card ->
  0 <= Canon.cost card /\
  forall p, Canon.power card = Some p -> 0 <= p.
Proof.
  assert (Hsafe : forall v, 0 <= Manager.safe_int v 0).
  { intros v. rewrite safe_int_digits_value.
    destruct (digits_value v) as [z|] eqn:E; simpl; [|lia].
    eapply digits_value_nonneg, E. }
  assert (Hfield : forall k o z, FetchData.digits_field card_data k = Ok o ->
                                 o = Some z -> 0 <= z).
  { intros k o z Ho ->. apply digits_field_spec in Ho as (s & _ & Ho).
    destruct (isdigit s); [|discriminate]. injection Ho as ->.
    apply digits_val_nonneg. lia. }
  intros [H | [H | H]].
  - apply build_card_fields in H as (_ & _ & _ & _ & -> & -> & _).
    split; [apply Hsafe|]. intros p. destruct (truthy _); [|discriminate].
    intros [= <-]. apply Hsafe.
  - apply build_card_fields in H as (_ & _ & _ & _ & -> & -> & _).
    split; [apply Hsafe|]. intros p. destruct (truthy _); [|discriminate].
    intros [= <-]. apply Hsafe.
  - apply fetch_data_normalize_inv in H
      as (code & e & element & ty & cost & power & rarity & b & _ & _ & _ & _
          & Hc & Hp & H).
    destruct H as (_ & _ & _ & _ & _ & _ & _ & _ & -> & -> & _). split.
    + destruct cost as [z|]; simpl; [|lia]. eapply Hfield; [exact Hc | reflexivity].
    + intros p Hpow. eapply Hfield; [exact Hp | exact Hpow].
Qed.

Lemma cost_and_power_are_not_negative_witness :
  exists card,
    FetchData.normalize
      [("code", VStr "1-001H"); ("element", VList [VStr "火"]);
       ("cost", VStr "6"); ("power", VStr "9000")] "Opus I" = Ok card /\
    0 <= Canon.cost card /\
    forall p, Canon.power card = Some p -> 0 <= p.
Proof.
  eexists. split; [reflexivity|].
  exact (cost_and_power_are_not_negative
           [("code", VStr "1-001H"); ("element", VList [VStr "火"]);
            ("cost", VStr "6"); ("power", VStr "9000")] "Opus I" _
           (or_intror (or_intror eq_refl))).
Defined.

(** ** The loops over the records of a response *)

Section LoopFacts.

Variable norm : dict -> string -> result Canon.card.

(** The guarded loop: what it returns when it ends. *)
Lemma loop_returns (set_name : string) (items : list value)
    (cards r : list Canon.card) :
  Manager.loop norm set_name cards items = Ok r ->
  Forall (fun v => is_dict v = true) items /\
  (length r <= length cards + length items)%nat /\
  forall c, c ∈ r -> c ∈ cards \/ exists d, VDict d ∈ items /\ norm d set_name = Ok c.
Proof.
  revert cards. induction items as [|v items IH]; intros cards; simpl.
  - intros [= <-]. split; [constructor|]. split; [lia|]. auto.
  - destruct v as [| | | | |d]; try discriminate. cbn [Manager.loop_step bind].
    intros H. apply IH in H as (Hd & Hlen & Hin). split; [constructor; [reflexivity|exact Hd]|].
    split.
    + destruct (norm d set_name); [rewrite length_app in Hlen; simpl in Hlen|]; lia.
    + intros c Hc. destruct (Hin c Hc) as [Hc' | (d' & Hd' & Hn)].
      * destruct (norm d set_name) as [card|] eqn:E; [|left; exact Hc'].
        apply elem_of_app in Hc' as [Hc' | Hc']; [left; exact Hc'|].
        apply list_elem_of_singleton in Hc' as ->. right. exists d.
        split; [apply list_elem_of_here | exact E].
      * right. exists d'. split; [apply list_elem_of_further, Hd' | exact Hn].
Qed.

(** The guarded loop stops at the first item that is no object. *)
Lemma loop_raises (set_name : string) (items : list value) (cards : list Canon.card) :
  Exists (fun v => is_dict v = false) items ->
  Manager.loop norm set_name cards items = Raise AttributeError.
Proof.
  intros H. revert cards. induction H as [v items Hv | v items _ IH]; intros cards; simpl.
  - destruct v; try reflexivity. discriminate Hv.
  - destruct v; try reflexivity. cbn [Manager.loop_step bind]. apply IH.
Qed.

Lemma try_except_elem {A} (x : result (list A)) (c : A) :
  c ∈ try_except x [] -> exists r, x = Ok r /\ c ∈ r.
Proof.
  destruct x as [r|]; simpl; intros H.
  - exists r. split; [reflexivity | exact H].
  - apply elem_of_nil in H. contradiction.
Qed.

(** Every card [fetch_set_data] returns comes from a record. *)
Lemma fetch_set_data_with_elem (response : result value) (set_name : string)
    (c : Canon.card) :
  c ∈ Manager.fetch_set_data_with norm response set_name ->
  exists d, norm d set_name = Ok c.
Proof.
  unfold Manager.fetch_set_data_with. intros H.
  apply try_except_elem in H as (r & Hr & Hc).
  destruct response as [data|]; [|discriminate]. cbn [bind] in Hr.
  destruct (contains data "cards") as [b|]; [|discriminate]. cbn [bind] in Hr.
  destruct b; simpl in Hr.
  - destruct (item data "cards") as [cards_data|]; [|discriminate]. cbn [bind] in Hr.
    destruct (iter cards_data) as [items|]; [|discriminate]. cbn [bind] in Hr.
    apply loop_returns in Hr as (_ & _ & Hin).
    destruct (Hin c Hc) as [H | (d & _ & Hd)].
    + apply elem_of_nil in H. contradiction.
    + exists d. exact Hd.
  - injection Hr as <-. apply elem_of_nil in Hc. contradiction.
Qed.

End LoopFacts.

(** The loop of fetch_fftcg_data.py: one card per item, or nothing. *)
Lemma fetch_data_loop_returns (set_name : string) (items : list value)
    (cards r : list Canon.card) :
  FetchData.loop set_name cards items = Ok r ->
  exists r', r = cards ++ r' /\
    Forall2 (fun v c => exists d, v = VDict d /\ FetchData.normalize d set_name = Ok c)
      items r'.
Proof.
  revert cards. induction items as [|v items IH]; intros cards; simpl.
  - intros [= <-]. exists []. split; [rewrite app_nil_r; reflexivity | constructor].
  - destruct v as [| | | | |d]; try discriminate.
    destruct (FetchData.normalize d set_name) as [card|] eqn:E; [|discriminate].
    cbn [bind]. intros H. apply IH in H as (r' & -> & Hf).
    exists (card :: r'). split; [rewrite <- app_assoc; reflexivity|].
    constructor; [exists d; split; [reflexivity | exact E] | exact Hf].
Qed.

(** X4.  Whatever the response to a request is, every card that
    [fetch_set_data] returns for it is filed under the set that was
    asked for, has the card number of its id, and carries the source
    tag of the upstream and the flag of a real image. *)
Theorem fetched_cards_are_filed_under_the_set (response : result value)
    (set_name : string) (c : Canon.card) :
  c ∈ Manager.fetch_set_data response set_name \/
  c ∈ FetchMissing.fetch_set_data response set_name \/
  c ∈ FetchData.fetch_set_data response set_name ->
  Canon.set c = set_name /\ Canon.cardNumber c = Canon.id c /\
  Canon.source c = "square-api" /\ Canon.hasRealImage c = true.
Proof.
  intros [H | [H | H]].
  - apply fetch_set_data_with_elem in H as [d Hd].
    pose proof (build_card_inv _ _ _ _ Hd) as (_ & _ & _ & _ & _ & _ & _ & _ & _ & Hflag).
    apply build_card_fields in Hd. tauto.
  - apply fetch_set_data_with_elem in H as [d Hd].
    pose proof (build_card_inv _ _ _ _ Hd) as (_ & _ & _ & _ & _ & _ & _ & _ & _ & Hflag).
    apply build_card_fields in Hd. tauto.
  - unfold FetchData.fetch_set_data in H.
    apply try_except_elem in H as (r & Hr & Hc).
    destruct response as [data|]; [|discriminate]. cbn [bind] in Hr.
    destruct (contains data "cards") as [b|]; [|discriminate]. cbn [bind] in Hr.
    destruct b; simpl in Hr.
    + destruct (item data "cards") as [cards_data|]; [|discriminate]. cbn [bind] in Hr.
      destruct (iter cards_data) as [items|]; [|discriminate]. cbn [bind] in Hr.
      apply fetch_data_loop_returns in Hr as (r' & -> & Hf). simpl in Hc.
      apply list_elem_of_lookup in Hc as [i Hi].
      destruct (Forall2_lookup_r _ _ _ _ _ Hf Hi) as (v & _ & d & _ & Hd).
      apply fetch_data_normalize_inv in Hd
        as (code & e & element & ty & cost & power & rarity & b & H).
      destruct H as (_ & _ & _ & _ & _ & _ & _ & _ & _ & -> & -> & H).
      destruct H as (_ & _ & _ & _ & _ & _ & _ & _ & _ & -> & -> & ->).
      repeat split.
    + injection Hr as <-. apply elem_of_nil in Hc. contradiction.
Qed.

Lemma fetched_cards_are_filed_under_the_set_witness :
  exists c,
    c ∈ Manager.fetch_set_data (cards_response [[("code", VStr "1-001H")]]) "Opus I" /\
    Canon.set c = "Opus I" /\ Canon.cardNumber c = Canon.id c /\
    Canon.source c = "square-api" /\ Canon.hasRealImage c = true.
Proof.
  eexists. split; [apply list_elem_of_here|].
  refine (fetched_cards_are_filed_under_the_set
            (cards_response [[("code", VStr "1-001H")]]) "Opus I" _ (or_introl _)).
  apply list_elem_of_here.
Defined.

(** X5.  For a response whose list of cards holds any items, the
    guarded [fetch_set_data] of the manager and of fetch_missing_sets.py
    returns at most one card per item; and when one item, wherever it
    stands, is no object, it returns no card at all, since the handler
    of the loop fails on that item and ends the loop. *)
Theorem fetch_set_data_item_bounds (items : list value) (set_name : string) :
  (length (Manager.fetch_set_data (items_response items) set_name) <= length items)%nat /\
  (length (FetchMissing.fetch_set_data (items_response items) set_name)
   <= length items)%nat /\
  (Exists (fun v => is_dict v = false) items ->
   Manager.fetch_set_data (items_response items) set_name = [] /\
   FetchMissing.fetch_set_data (items_response items) set_name = []).
Proof.
  assert (Hlen : forall norm,
    (length (Manager.fetch_set_data_with norm (items_response items) set_name)
     <= length items)%nat).
  { intros norm. unfold Manager.fetch_set_data_with, items_response. simpl.
    destruct (Manager.loop norm set_name [] items) as [r|] eqn:E; simpl; [|lia].
    apply loop_returns in E as (_ & E & _). simpl in E. exact E. }
  split; [apply Hlen|]. split; [apply Hlen|].
  intros H. unfold Manager.fetch_set_data, FetchMissing.fetch_set_data,
    Manager.fetch_set_data_with, items_response. simpl.
  rewrite !(loop_raises _ _ _ _ H). split; reflexivity.
Qed.

Lemma fetch_set_data_item_bounds_witness :
  Manager.fetch_set_data
    (items_response [VDict [("code", VStr "1-001H")]; VStr "1-002R"]) "Opus I" = [] /\
  FetchMissing.fetch_set_data
    (items_response [VDict [("code", VStr "1-001H")]; VStr "1-002R"]) "Opus I" = [].
Proof.
  apply (proj2 (proj2 (fetch_set_data_item_bounds
                  [VDict [("code", VStr "1-001H")]; VStr "1-002R"] "Opus I"))).
  apply Exists_cons_tl, Exists_cons_hd. reflexivity.
Defined.

(** X6.  [fetch_set_data] of fetch_fftcg_data.py has no handler in its
    loop: for a response whose list of cards holds any items it returns
    either no card, or the cards of all the items, one per item and in
    their order. *)
Theorem fetch_data_is_all_or_nothing (items : list value) (set_name : string) :
  FetchData.fetch_set_data (items_response items) set_name = [] \/
  Forall2 (fun v c => exists d, v = VDict d /\ FetchData.normalize d set_name = Ok c)
    items (FetchData.fetch_set_data (items_response items) set_name).
Proof.
  unfold FetchData.fetch_set_data, items_response. simpl.
  destruct (FetchData.loop set_name [] items) as [r|] eqn:E; simpl; [|left; reflexivity].
  apply fetch_data_loop_returns in E as (r' & -> & Hf). right. exact Hf.
Qed.

Section ToleranceFacts.

Lemma first_truthy (v x : value) : first v = Ok x -> truthy v = true.
Proof.
  destruct v as [| | |s|l|d]; try discriminate.
  - destruct s; [discriminate | reflexivity].
  - destruct l; [discriminate | reflexivity].
Qed.

Lemma lower_empty (s : string) : String.eqb (lower s) "" = String.eqb s "".
Proof. destruct s; reflexivity. Qed.

(** An element that fetch_fftcg_data.py maps is one the manager maps. *)
Lemma card_element_of_fetch_data (card_data : dict) (e : value) (element : string) :
  find_key "element" card_data = Some e ->
  (if truthy e then x <- first e ;; FetchData.element_mapping x
   else Ok "unknown") = Ok element ->
  exists element', Manager.card_element card_data = Ok element'.
Proof.
  intros Hfind He. unfold Manager.card_element, get, getitem. rewrite Hfind.
  destruct (truthy e) eqn:Ht; [|eexists; reflexivity]. cbn [bind].
  destruct (first e) as [x|] eqn:Hx; [|discriminate]. cbn [bind] in He.
  unfold FetchData.element_mapping in He. destruct x; try discriminate.
  assert (Hlen : exists n, len e = Ok n).
  { destruct e; try discriminate; eexists; reflexivity. }
  destruct Hlen as [n ->]. cbn [bind].
  destruct (0 <? n)%nat; [|eexists; reflexivity].
  cbn [bind]. unfold Manager.element_mapping.
  destruct (negb (truthy (VStr s))); eexists; reflexivity.
Qed.

(** The image the test of fetch_fftcg_data.py lets through is the one
    the test of the manager lets through. *)
Lemma has_full_image_of_fetch_data (card_data : dict) (b : bool) :
  fetch_data_has_image card_data = Ok b ->
  (b = true -> exists img, Manager.full_image card_data = Ok img) ->
  Manager.has_full_image card_data = Ok b.
Proof.
  unfold fetch_data_has_image, Manager.has_full_image, Manager.full_image.
  destruct (has_key card_data "images"); [|auto].
  destruct (getitem card_data "images") as [images|]; [|discriminate]. cbn [bind].
  destruct (contains images "full") as [b'|]; [|discriminate]. cbn [bind].
  intros [= ->]. destruct b; [|reflexivity].
  intros H. destruct (H eq_refl) as [img Himg].
  destruct (item images "full") as [full|]; [|discriminate]. cbn [bind] in *.
  rewrite (first_truthy _ _ Himg). reflexivity.
Qed.

End ToleranceFacts.

(** X7.  The manager and fetch_missing_sets.py accept every record that
    fetch_fftcg_data.py accepts: when the older normaliser builds a card
    from a record, so do they, with the same id, card number,
    name, cost, job, category, text, set, source and image, and with
    the same type, "unknown" standing for an empty one. *)
Theorem manager_accepts_what_fetch_data_accepts (card_data : dict)
    (set_name : string) (card : Canon.card) :
  FetchData.normalize card_data set_name = Ok card ->
  forall norm, norm = Manager.normalize \/ norm = FetchMissing.normalize ->
  exists card',
    norm card_data set_name = Ok card' /\
    Canon.id card' = Canon.id card /\
    Canon.cardNumber card' = Canon.cardNumber card /\
    Canon.name card' = Canon.name card /\
    Canon.cost card' = Canon.cost card /\
    Canon.job card' = Canon.job card /\
    Canon.category card' = Canon.category card /\
    Canon.text card' = Canon.text card /\
    Canon.set card' = Canon.set card /\
    Canon.source card' = Canon.source card /\
    Canon.image card' = Canon.image card /\
    Canon.type card' =
      (if String.eqb (Canon.type card) "" then "unknown" else Canon.type card).
Proof.
  intros H norm Hnorm.
  assert (Hgen : forall rarity_of, exists card',
    Manager.build_card rarity_of card_data set_name = Ok card' /\
    Canon.id card' = Canon.id card /\
    Canon.cardNumber card' = Canon.cardNumber card /\
    Canon.name card' = Canon.name card /\
    Canon.cost card' = Canon.cost card /\
    Canon.job card' = Canon.job card /\
    Canon.category card' = Canon.category card /\
    Canon.text card' = Canon.text card /\
    Canon.set card' = Canon.set card /\
    Canon.source card' = Canon.source card /\
    Canon.image card' = Canon.image card /\
    Canon.type card' =
      (if String.eqb (Canon.type card) "" then "unknown" else Canon.type card)).
  { intros rarity_of.
    apply fetch_data_normalize_inv in H
      as (code & e & element & ty & cost & power & rarity & b
          & Hcode & Helem & He & Hty & Hcost & Hpower & _ & Hb & Himg & H).
    destruct H as (Hid & Hnum & Hname & _ & Htype & Hc & _ & Hjob & Hcat & _
                   & Htext & Hset & Hsrc & _).
    destruct (card_element_of_fetch_data _ _ _ Helem He) as [element' Helem'].
    assert (Hb' : Manager.has_full_image card_data = Ok b).
    { apply has_full_image_of_fetch_data; [exact Hb|].
      intros ->. destruct Himg as (img & Hi & _). exists img. exact Hi. }
    assert (Hty' : Manager.type_mapping (get card_data "type_en" (VStr ""))
                   = Ok (if String.eqb ty "" then "unknown" else ty)).
    { unfold FetchData.type_mapping in Hty. unfold Manager.type_mapping.
      destruct (get card_data "type_en" (VStr "")) as [| | |s| |]; try discriminate.
      rewrite get_or_lower_type in *. injection Hty as <-.
      rewrite lower_empty. simpl. destruct (String.eqb s ""); reflexivity. }
    unfold Manager.build_card. rewrite Helem', Hty', Hb'. cbn [bind].
    assert (Hcode' : get card_data "code" (VStr "unknown") = code).
    { unfold get. rewrite Hcode. reflexivity. }
    destruct b.
    - destruct Himg as (img & -> & Himg). cbn [bind].
      eexists. split; [reflexivity|]. simpl.
      rewrite Hid, Hnum, Hname, Hc, Hjob, Hcat, Htext, Hset, Hsrc, Himg, Htype, Hcode'.
      rewrite (digits_field_safe_int _ _ _ Hcost). repeat split.
    - eexists. split; [reflexivity|]. simpl.
      rewrite Hid, Hnum, Hname, Hc, Hjob, Hcat, Htext, Hset, Hsrc, Himg, Htype, Hcode'.
      rewrite (digits_field_safe_int _ _ _ Hcost). repeat split. }
  destruct Hnorm as [-> | ->]; apply Hgen.
Qed.

Lemma manager_accepts_what_fetch_data_accepts_witness :
  exists card card',
    FetchData.normalize
      [("code", VStr "1-001H"); ("element", VList [VStr "火"]); ("cost", VStr "6")]
      "Opus I" = Ok card /\
    Manager.normalize
      [("code", VStr "1-001H"); ("element", VList [VStr "火"]); ("cost", VStr "6")]
      "Opus I" = Ok card' /\
    Canon.id card' = Canon.id card /\ Canon.cost card' = Canon.cost card.
Proof.
  eexists.
  destruct (manager_accepts_what_fetch_data_accepts
              [("code", VStr "1-001H"); ("element", VList [VStr "火"]); ("cost", VStr "6")]
              "Opus I" _ eq_refl Manager.normalize (or_introl eq_refl))
    as (card' & H1 & H2 & _ & _ & H3 & _).
  exists card'. repeat split; assumption.
Defined.

(** X8.  The card that the manager or fetch_missing_sets.py builds has
    for image the first item of [images.full] of the record, and no
    image when the record has no such item: never a placeholder. *)
Theorem card_image_is_first_full_image (card_data : dict) (set_name : string)
    (card : Canon.card) :
  Manager.normalize card_data set_name = Ok card \/
  FetchMissing.normalize card_data set_name = Ok card ->
  Canon.image card = first_full_image card_data.
Proof.
  assert (Hgen : forall rarity_of,
    Manager.build_card rarity_of card_data set_name = Ok card ->
    Canon.image card = first_full_image card_data).
  { intros rarity_of H. apply build_card_inv in H as (b & _ & _ & Hb & Himg & _).
    revert Hb Himg.
    unfold Manager.has_full_image, Manager.full_image, first_full_image, has_key, getitem.
    destruct (find_key "images" card_data) as [images|].
    - cbn [bind]. destruct (contains images "full") as [b'|] eqn:Ec; [|discriminate].
      cbn [bind]. destruct b'.
      + destruct images as [| | | | |kvs]; try discriminate.
        simpl in Ec. unfold has_key in Ec. simpl. unfold getitem.
        destruct (find_key "full" kvs) as [full|]; [|discriminate]. cbn [bind].
        intros [= <-]. destruct (truthy full) eqn:Et.
        * intros (img & -> & ->). reflexivity.
        * intros ->. destruct full as [| | |s|l|d]; try reflexivity; try discriminate.
          -- destruct s; [reflexivity | discriminate].
          -- destruct l; [reflexivity | discriminate].
      + intros [= <-] ->. destruct images as [| | | | |kvs]; try reflexivity.
        simpl in Ec. unfold has_key in Ec.
        destruct (find_key "full" kvs); [discriminate | reflexivity].
    - intros [= <-] ->. reflexivity. }
  intros [H | H]; eapply Hgen, H.
Qed.

Lemma card_image_is_first_full_image_witness :
  exists card,
    Manager.normalize
      [("images", VDict [("full", VList [VStr "https://example.org/a.jpg";
                                         VStr "https://example.org/b.jpg"])])]
      "Opus I" = Ok card /\
    Canon.image card = Some (VStr "https://example.org/a.jpg").
Proof.
  eexists. split; [reflexivity|].
  exact (card_image_is_first_full_image
           [("images", VDict [("full", VList [VStr "https://example.org/a.jpg";
                                              VStr "https://example.org/b.jpg"])])]
           "Opus I" _ (or_introl eq_refl)).
Defined.



Section RarityFacts.

Lemma dec_not_empty (z : Z) : dec z <> EmptyString.
Proof.
  unfold dec. destruct z as [|p|p]; simpl; try discriminate.
  unfold NilZero.string_of_uint.
  assert (H : forall d, d <> Decimal.Nil -> NilEmpty.string_of_uint d <> EmptyString)
    by (intros []; simpl; congruence).
  destruct (Pos.to_uint p) eqn:E; try discriminate; apply H; discriminate.
Qed.

Lemma str_truthy_not_empty (v : value) : truthy v = true -> str v <> EmptyString.
Proof.
  destruct v as [|b|z|s|l|d]; simpl; try discriminate.
  - destruct b; discriminate.
  - intros _. apply dec_not_empty.
  - destruct s; discriminate.
Qed.

Lemma upper_empty (s : string) : upper s = EmptyString -> s = EmptyString.
Proof. destruct s; [reflexivity | discriminate]. Qed.

End RarityFacts.

(** X10.  [rarity_mapping] of fetch_missing_sets.py never returns an
    empty rarity: whatever the raw value, the result has one character
    at least and no small letter. *)
Theorem rarity_mapping_is_never_empty (rarity : value) :
  FetchMissing.rarity_mapping rarity <> EmptyString /\
  sall (fun c => negb (is_lower c)) (FetchMissing.rarity_mapping rarity) = true.
Proof.
  unfold FetchMissing.rarity_mapping. destruct (truthy rarity) eqn:E; simpl.
  - split; [|apply upper_no_lower].
    intros H. apply upper_empty in H. exact (str_truthy_not_empty rarity E H).
  - split; [discriminate | reflexivity].
Qed.

(** ** More on the image URL resolvers *)

Section MoreResolverFacts.

Lemma span_digits_app_upper (base letters : string) :
  sall is_upper letters = true ->
  span_digits (base +:+ letters) = ((span_digits base).1, (span_digits base).2 +:+ letters).
Proof.
  intros Hl. induction base as [|c base IH].
  - rewrite append_empty_l. destruct letters as [|c letters]; [reflexivity|].
    simpl in *. apply andb_true_iff in Hl as [Hc _].
    assert (Hd : is_digit c = false) by (revert Hc; clear; char_cases).
    rewrite Hd. reflexivity.
  - rewrite append_cons. simpl. destruct (is_digit c); [|reflexivity].
    rewrite IH. destruct (span_digits base). reflexivity.
Qed.

Lemma opus_match_app_upper (base letters : string) :
  sall is_upper letters = true ->
  opus_match (base +:+ letters) = opus_match base.
Proof.
  intros Hl. unfold opus_match. rewrite (span_digits_app_upper _ _ Hl).
  destruct (span_digits base) as [ds rest]. simpl.
  destruct ds as [|d ds]; [reflexivity|].
  destruct rest as [|c rest]; [|reflexivity].
  rewrite append_empty_l. destruct letters as [|c letters]; [reflexivity|].
  simpl in Hl. apply andb_true_iff in Hl as [Hc _].
  destruct c as [[] [] [] [] [] [] [] []]; try reflexivity; discriminate Hc.
Qed.

Lemma sub_upper_end_app_upper (base letters : string) :
  sall (fun c => negb (Ascii.eqb c newline)) base = true ->
  sall is_upper letters = true ->
  sub_upper_end (base +:+ letters) = rstrip_upper base.
Proof.
  intros Hb Hl. unfold sub_upper_end. rewrite drop_final_newline_none.
  - apply rstrip_upper_app, Hl.
  - rewrite sall_app, Hb. simpl. revert Hl. apply sall_impl. intros c H.
    rewrite (upper_not_newline c H). reflexivity.
Qed.



End MoreResolverFacts.


(** X12.  The rarity letters play no part in the URL: two identifiers
    that differ only in the capital letters at their end get the same
    result from the resolvers, so that the cards 1-001H and 1-001R share
    one image. *)
Theorem trailing_capitals_do_not_change_the_url (base letters1 letters2 : string) :
  sall (fun c => negb (Ascii.eqb c newline)) base = true ->
  sall is_upper letters1 = true ->
  sall is_upper letters2 = true ->
  ManagerImages.get_materia_hunter_url (base +:+ letters1)
  = ManagerImages.get_materia_hunter_url (base +:+ letters2) /\
  UpdateImages.generate_materia_hunter_url (base +:+ letters1)
  = UpdateImages.generate_materia_hunter_url (base +:+ letters2).
Proof.
  intros Hb H1 H2.
  rewrite !generate_materia_hunter_url_resolved, !get_materia_hunter_url_resolved.
  assert (H : forall l, sall is_upper l = true ->
    resolved (base +:+ l)
    = match opus_match base with
      | Some ds =>
          if in_range (digits_val 0 ds)
          then Some (materia_hunter_path (format_02d (digits_val 0 ds)) (rstrip_upper base))
          else None
      | None => None
      end).
  { intros l Hl. unfold resolved.
    rewrite (opus_match_app_upper _ _ Hl), (sub_upper_end_app_upper _ _ Hb Hl).
    reflexivity. }
  rewrite (H _ H1), (H _ H2). split; reflexivity.
Qed.

Lemma trailing_capitals_do_not_change_the_url_witness :
  ManagerImages.get_materia_hunter_url ("1-001" +:+ "H")
  = ManagerImages.get_materia_hunter_url ("1-001" +:+ "R").
Proof.
  exact (proj1 (trailing_capitals_do_not_change_the_url "1-001" "H" "R"
                  eq_refl eq_refl eq_refl)).
Defined.


(** ** More on the merge of the cards *)

Section MoreMergeFacts.

(** The dedup loop over cards whose ids are new and distinct keeps them
    all. *)
Lemma dedup_loop_fresh (l : list Store.card) (seen_ids : gset string)
    (unique_cards : list Store.card) :
  NoDup (Store.id <$> l) ->
  (forall c, c ∈ l -> Store.id c ∉ seen_ids) ->
  foldl Store.dedup_step (seen_ids, unique_cards) l
  = (list_to_set (Store.id <$> l) ∪ seen_ids, unique_cards ++ l).
Proof.
  revert seen_ids unique_cards.
  induction l as [|c l IH]; intros seen_ids unique_cards Hnd Hfresh; simpl.
  - rewrite app_nil_r, (left_id_L ∅ (∪)). reflexivity.
  - rewrite fmap_cons in Hnd. apply NoDup_cons in Hnd as [Hc Hnd].
    unfold Store.dedup_step at 2. simpl.
    destruct (decide (Store.id c ∈ seen_ids)) as [Hin|_].
    { exfalso. exact (Hfresh c (list_elem_of_here _ _) Hin). }
    rewrite IH; [| exact Hnd |].
    + rewrite <- app_assoc. simpl. f_equal.
      rewrite (assoc_L (∪)), (comm_L (∪) _ {[Store.id c]}). reflexivity.
    + intros c' Hc' Hin. apply elem_of_union in Hin as [Hin|Hin].
      * apply elem_of_singleton in Hin. apply Hc. rewrite <- Hin.
        apply list_elem_of_fmap_2, Hc'.
      * exact (Hfresh c' (list_elem_of_further _ _ _ Hc') Hin).
Qed.

(** The dedup loop over cards whose ids have all been seen keeps none. *)
Lemma dedup_loop_seen (l : list Store.card) (seen_ids : gset string)
    (unique_cards : list Store.card) :
  (forall c, c ∈ l -> Store.id c ∈ seen_ids) ->
  foldl Store.dedup_step (seen_ids, unique_cards) l = (seen_ids, unique_cards).
Proof.
  induction l as [|c l IH]; intros Hseen; simpl; [reflexivity|].
  unfold Store.dedup_step at 2. simpl.
  destruct (decide (Store.id c ∈ seen_ids)) as [_|Hnin].
  - apply IH. intros c' Hc'. apply Hseen, list_elem_of_further, Hc'.
  - exfalso. apply Hnin, Hseen, list_elem_of_here.
Qed.

Lemma dedup_distinct (l : list Store.card) :
  NoDup (Store.id <$> l) -> Store.dedup l = l.
Proof.
  intros H. unfold Store.dedup. rewrite dedup_loop_fresh; [reflexivity | exact H |].
  intros c _. apply not_elem_of_empty.
Qed.

Lemma dedup_app_known (l new_cards : list Store.card) :
  NoDup (Store.id <$> l) ->
  (forall c, c ∈ new_cards -> Store.id c ∈ Store.id <$> l) ->
  Store.dedup (l ++ new_cards) = l.
Proof.
  intros Hnd Hknown. unfold Store.dedup. rewrite foldl_app.
  rewrite dedup_loop_fresh; [| exact Hnd | intros c _; apply not_elem_of_empty].
  rewrite dedup_loop_seen; [reflexivity|].
  intros c Hc. apply elem_of_union. left. apply elem_of_list_to_set, Hknown, Hc.
Qed.

Lemma sort_of_sorted (l : list Store.card) :
  StronglySorted key_le l -> Store.sort l = l.
Proof.
  intros H. symmetry. apply stable_sort_unique; [exact H | reflexivity].
Qed.

Lemma merge_ids (existing_cards new_cards : list Store.card) (i : string) :
  i ∈ Store.id <$> Store.merge existing_cards new_cards <->
  i ∈ Store.id <$> (existing_cards ++ new_cards).
Proof.
  pose proof (find_has_id_None i (Store.merge existing_cards new_cards)) as H1.
  pose proof (find_has_id_None i (existing_cards ++ new_cards)) as H2.
  rewrite merge_find in H1.
  destruct (find (has_id i) (existing_cards ++ new_cards)).
  - split; intros _.
    + destruct (decide (i ∈ Store.id <$> (existing_cards ++ new_cards))) as [H|H];
        [exact H|]. apply H2 in H. discriminate.
    + destruct (decide (i ∈ Store.id <$> Store.merge existing_cards new_cards)) as [H|H];
        [exact H|]. apply H1 in H. discriminate.
  - split; intros H; exfalso; [apply (proj1 H1) | apply (proj1 H2)]; auto.
Qed.

(** A sorted file with distinct ids that knows every fetched id is what
    the merge returns. *)
Lemma merge_known (existing_cards new_cards : list Store.card) :
  StronglySorted key_le existing_cards ->
  NoDup (Store.id <$> existing_cards) ->
  (forall c, c ∈ new_cards -> Store.id c ∈ Store.id <$> existing_cards) ->
  Store.merge existing_cards new_cards = existing_cards.
Proof.
  intros Hs Hnd Hknown. unfold Store.merge.
  rewrite (dedup_app_known _ _ Hnd Hknown). apply sort_of_sorted, Hs.
Qed.

Lemma merge_merge (existing_cards new_cards : list Store.card) :
  Store.merge (Store.merge existing_cards new_cards) new_cards
  = Store.merge existing_cards new_cards.
Proof.
  apply merge_known; [apply sort_sorted | apply merge_NoDup |].
  intros c Hc. apply merge_ids. rewrite fmap_app. apply elem_of_app. right.
  apply list_elem_of_fmap_2, Hc.
Qed.

(** The cards the dedup keeps stand in the order they had. *)
Lemma dedup_loop_sublist (l : list Store.card) (seen_ids : gset string)
    (unique_cards : list Store.card) :
  exists kept,
    (foldl Store.dedup_step (seen_ids, unique_cards) l).2 = unique_cards ++ kept /\
    kept `sublist_of` l.
Proof.
  revert seen_ids unique_cards.
  induction l as [|c l IH]; intros seen_ids unique_cards; simpl.
  - exists []. split; [rewrite app_nil_r; reflexivity | constructor].
  - unfold Store.dedup_step at 2. simpl.
    destruct (decide (Store.id c ∈ seen_ids)).
    + destruct (IH seen_ids unique_cards) as (kept & -> & Hs).
      exists kept. split; [reflexivity | apply sublist_cons, Hs].
    + destruct (IH ({[Store.id c]} ∪ seen_ids) (unique_cards ++ [c])) as (kept & -> & Hs).
      exists (c :: kept). split; [rewrite <- app_assoc; reflexivity|].
      apply sublist_skip, Hs.
Qed.

End MoreMergeFacts.

(** X14.  The dedup pass keeps the surviving cards in the order they
    had in its input, makes no copy of a card, changes nothing when the
    ids are already distinct, and a second pass changes nothing. *)
Theorem dedup_keeps_order (all_cards : list Store.card) :
  Store.dedup all_cards `sublist_of` all_cards /\
  Store.dedup (Store.dedup all_cards) = Store.dedup all_cards /\
  (NoDup (Store.id <$> all_cards) -> Store.dedup all_cards = all_cards).
Proof.
  split; [|split].
  - unfold Store.dedup. destruct (dedup_loop_sublist all_cards ∅ []) as (kept & -> & Hs).
    exact Hs.
  - apply dedup_distinct, dedup_spec.
  - apply dedup_distinct.
Qed.

(** X15.  When the persisted cards have distinct ids, the merge loses
    none of them and changes none: every persisted card is in the result,
    and every card of the result is a persisted card or a fetched card
    whose id the persisted cards do not have.  The ids of the result are
    those of both inputs. *)
Theorem merge_keeps_persisted_cards (existing_cards new_cards : list Store.card) :
  NoDup (Store.id <$> existing_cards) ->
  (forall c, c ∈ existing_cards -> c ∈ Store.merge existing_cards new_cards) /\
  (forall c, c ∈ Store.merge existing_cards new_cards ->
             c ∈ existing_cards \/
             (c ∈ new_cards /\ Store.id c ∉ Store.id <$> existing_cards)) /\
  (forall i, i ∈ Store.id <$> Store.merge existing_cards new_cards <->
             i ∈ Store.id <$> existing_cards \/ i ∈ Store.id <$> new_cards).
Proof.
  intros Hnd. split; [|split].
  - intros c Hc. apply merge_elem_of. rewrite find_app_first.
    rewrite (find_has_id_Some _ _ c Hnd Hc eq_refl). reflexivity.
  - intros c Hc. apply merge_elem_of in Hc. rewrite find_app_first in Hc.
    destruct (find (has_id (Store.id c)) existing_cards) as [x|] eqn:E.
    + injection Hc as ->. left. apply find_some in E as [E _].
      apply list_elem_of_In, E.
    + right. split.
      * apply find_some in Hc as [Hc _]. apply list_elem_of_In, Hc.
      * apply find_has_id_None, E.
  - intros i. rewrite merge_ids, fmap_app, elem_of_app. reflexivity.
Qed.

Lemma merge_keeps_persisted_cards_witness :
  sample_card "1-001H" "Auron" "Opus I" None
  ∈ Store.merge
      [sample_card "2-005C" "Lenna" "Opus II" None;
       sample_card "1-001H" "Auron" "Opus I" None]
      [sample_card "1-001H" "Auron (reprint)" "Opus I" None].
Proof.
  refine (proj1 (merge_keeps_persisted_cards
                   [sample_card "2-005C" "Lenna" "Opus II" None;
                    sample_card "1-001H" "Auron" "Opus I" None]
                   [sample_card "1-001H" "Auron (reprint)" "Opus I" None] _) _ _).
  - apply NoDup_cons. split.
    + intros H. apply list_elem_of_singleton in H. discriminate H.
    + apply NoDup_singleton.
  - apply list_elem_of_further, list_elem_of_here.
Defined.

(** X16.  Fetching again what has been merged changes nothing: the merge
    of a merged collection with the same fetched cards is that
    collection, and a second run of fetch-missing against the same
    upstream leaves the files as the first run left them. *)
Theorem refetching_changes_nothing (fetch_set_data : string -> list Store.card)
    (missing_sets : list string) (fs : Store.files) :
  (forall existing_cards new_cards,
     Store.merge (Store.merge existing_cards new_cards) new_cards
     = Store.merge existing_cards new_cards) /\
  Store.fetch_missing_sets fetch_set_data missing_sets
    (Store.fetch_missing_sets fetch_set_data missing_sets fs).2
  = (Store.Returned, (Store.fetch_missing_sets fetch_set_data missing_sets fs).2).
Proof.
  split; [apply merge_merge|].
  unfold Store.fetch_missing_sets.
  destruct (Store.cards_file fs) as [existing_cards|] eqn:Hfile; simpl.
  - destruct (Store.collect fetch_set_data missing_sets) as [|c new_cards] eqn:Hnew; simpl.
    + rewrite Hfile. reflexivity.
    + rewrite merge_merge. reflexivity.
  - rewrite Hfile. reflexivity.
Qed.

(** X17.  The order in which the cards are written is the stable order
    by (set name, card number): the sorted list has the cards of its
    input, is in ascending order, keeps the cards of equal keys in the
    order they had, is the only list with these properties, and sorting
    it again changes nothing. *)
Theorem sort_is_the_stable_sort (l : list Store.card) :
  Store.sort l ≡ₚ l /\
  StronglySorted key_le (Store.sort l) /\
  (forall k, filter (fun c => Store.key c = k) (Store.sort l)
             = filter (fun c => Store.key c = k) l) /\
  (forall sorted,
     StronglySorted key_le sorted ->
     (forall k, filter (fun c => Store.key c = k) sorted
                = filter (fun c => Store.key c = k) l) ->
     sorted = Store.sort l) /\
  Store.sort (Store.sort l) = Store.sort l.
Proof.
  split; [apply sort_Permutation|].
  split; [apply sort_sorted|].
  split; [intros k; apply sort_stable|].
  split; [intros sorted; apply stable_sort_unique|].
  apply sort_of_sorted, sort_sorted.
Qed.


(** X19.  When the fetch of every set fails or finds no card, a
    fetch-missing run writes nothing: both files stay as they were. *)
Theorem failed_fetches_leave_the_files (fetch_set_data : string -> list Store.card)
    (missing_sets : list string) (fs : Store.files) :
  (forall set_name, set_name ∈ missing_sets -> fetch_set_data set_name = []) ->
  Store.fetch_missing_sets fetch_set_data missing_sets fs = (Store.Returned, fs).
Proof.
  intros Hfail.
  assert (Hnone : Store.collect fetch_set_data missing_sets = []).
  { rewrite collect_concat. induction missing_sets as [|s sets IH]; [reflexivity|].
    simpl. rewrite (Hfail s (list_elem_of_here _ _)). simpl. apply IH.
    intros s' Hs'. apply Hfail, list_elem_of_further, Hs'. }
  unfold Store.fetch_missing_sets. rewrite Hnone.
  destruct (Store.cards_file fs); reflexivity.
Qed.

Lemma failed_fetches_leave_the_files_witness :
  Store.fetch_missing_sets reprint_upstream ["Crystal Dominion"; "Hidden Trials"]
    sample_files
  = (Store.Returned, sample_files).
Proof.
  apply (failed_fetches_leave_the_files reprint_upstream
           ["Crystal Dominion"; "Hidden Trials"] sample_files).
  intros s Hs.
  repeat (apply elem_of_cons in Hs as [-> | Hs]; [reflexivity|]).
  apply elem_of_nil in Hs. contradiction.
Defined.

(** ** More on the image mapping *)

Section EntryLoopFacts.

Variable entry_of : Store.card -> option dict.

Lemma put_entry_lookup (m : gmap string dict) (c : Store.card) (i : string) :
  put_entry entry_of m c !! i
  = if has_id i c then
      match entry_of c with
      | Some e => Some e
      | None => m !! i
      end
    else m !! i.
Proof.
  unfold put_entry, has_id. destruct (String.eqb_spec (Store.id c) i) as [<-|N].
  - destruct (entry_of c); [apply lookup_insert_eq | reflexivity].
  - destruct (entry_of c); [apply lookup_insert_ne, N | reflexivity].
Qed.

(** The entry of an id after the loop is the last one its cards gave. *)
Lemma entries_lookup (cards : list Store.card) (m : gmap string dict) (i : string) :
  foldl (put_entry entry_of) m cards !! i = entry_after entry_of i (m !! i) cards.
Proof.
  revert m. induction cards as [|c cards IH]; intros m; [reflexivity|].
  simpl. rewrite IH, put_entry_lookup. reflexivity.
Qed.

Lemma entry_after_const (i : string) (e : dict) (cards : list Store.card)
    (before : option dict) :
  (forall c, c ∈ cards -> Store.id c = i -> entry_of c = Some e) ->
  entry_after entry_of i before cards
  = if existsb (has_id i) cards then Some e else before.
Proof.
  revert before. induction cards as [|c cards IH]; intros before H; [reflexivity|].
  unfold entry_after in *. simpl.
  assert (H' : forall c', c' ∈ cards -> Store.id c' = i -> entry_of c' = Some e).
  { intros c' Hc'. apply H, list_elem_of_further, Hc'. }
  rewrite (IH _ H'). destruct (has_id i c) eqn:Hc; simpl; [|reflexivity].
  rewrite (H c (list_elem_of_here _ _) (proj1 (has_id_true i c) Hc)).
  destruct (existsb (has_id i) cards); reflexivity.
Qed.

Lemma entry_after_none (i : string) (cards : list Store.card) (before : option dict) :
  existsb (has_id i) cards = false ->
  entry_after entry_of i before cards = before.
Proof.
  revert before. induction cards as [|c cards IH]; intros before H; [reflexivity|].
  simpl in H. apply orb_false_iff in H as [Hc H].
  unfold entry_after in *. simpl. rewrite Hc. apply IH, H.
Qed.

(** An entry of the result was in the mapping before, or a card gave it. *)
Lemma entry_after_origin (i : string) (cards : list Store.card)
    (before : option dict) (e : dict) :
  entry_after entry_of i before cards = Some e ->
  before = Some e \/ exists c, c ∈ cards /\ Store.id c = i /\ entry_of c = Some e.
Proof.
  revert before. induction cards as [|c cards IH]; intros before; [left; assumption|].
  unfold entry_after in *. simpl. intros H. apply IH in H as [H | (c' & Hc' & Hi & He)].
  - destruct (has_id i c) eqn:Hc; [|left; exact H].
    destruct (entry_of c) as [e'|] eqn:E; [|left; exact H].
    right. exists c. split; [apply list_elem_of_here|].
    split; [apply has_id_true, Hc | rewrite E; exact H].
  - right. exists c'. split; [apply list_elem_of_further, Hc' | split; assumption].
Qed.

(** A card that gives an entry leaves its id with an entry. *)
Lemma entry_after_is_Some (i : string) (cards : list Store.card)
    (before : option dict) :
  is_Some before \/ (exists c, c ∈ cards /\ Store.id c = i /\ is_Some (entry_of c)) ->
  is_Some (entry_after entry_of i before cards).
Proof.
  revert before. induction cards as [|c cards IH]; intros before H.
  - destruct H as [H | (c & Hc & _)]; [exact H|]. apply elem_of_nil in Hc. contradiction.
  - unfold entry_after in *. simpl. apply IH.
    destruct H as [H | (c' & Hc' & Hi & He)].
    + left. destruct (has_id i c); [|exact H]. destruct (entry_of c); [eauto | exact H].
    + apply elem_of_cons in Hc' as [-> | Hc'].
      * left. rewrite (proj2 (has_id_true i c) Hi).
        destruct He as [e ->]. eauto.
      * right. exists c'. split; [exact Hc' | split; assumption].
Qed.

End EntryLoopFacts.

Lemma entry_after_ext (f g : Store.card -> option dict) (i : string)
    (cards : list Store.card) (before : option dict) :
  (forall c, c ∈ cards -> Store.id c = i -> f c = g c) ->
  entry_after f i before cards = entry_after g i before cards.
Proof.
  revert before. induction cards as [|c cards IH]; intros before H; [reflexivity|].
  unfold entry_after in *. simpl.
  rewrite IH by (intros c' Hc'; apply H, list_elem_of_further, Hc').
  destruct (has_id i c) eqn:Hc; [|reflexivity].
  rewrite (H c (list_elem_of_here _ _) (proj1 (has_id_true i c) Hc)). reflexivity.
Qed.

Lemma has_id_exists (i : string) (cards : list Store.card) (c : Store.card) :
  c ∈ cards -> Store.id c = i -> existsb (has_id i) cards = true.
Proof.
  intros Hc Hi. apply existsb_exists. exists c.
  split; [apply list_elem_of_In, Hc | apply has_id_true, Hi].
Qed.

(** A second pass over the same cards rebuilds the mapping of the first
    when, for every id, the second rule gives its cards what the first
    gave them, or gives them all the entry the first pass ended with. *)
Lemma second_pass_same (f1 f2 : Store.card -> option dict) (cards : list Store.card) :
  (forall i,
     (forall c, c ∈ cards -> Store.id c = i -> f2 c = f1 c) \/
     (exists e, foldl (put_entry f1) ∅ cards !! i = Some e /\
                forall c, c ∈ cards -> Store.id c = i -> f2 c = Some e)) ->
  foldl (put_entry f2) ∅ cards = foldl (put_entry f1) ∅ cards.
Proof.
  intros H. apply map_eq. intros i. destruct (H i) as [Hsame | (e & He & Hall)].
  - rewrite !entries_lookup. apply entry_after_ext, Hsame.
  - rewrite He, entries_lookup, (entry_after_const f2 i e cards _ Hall).
    rewrite entries_lookup, lookup_empty in He.
    apply entry_after_origin in He as [He | (c & Hc & Hi & _)]; [discriminate|].
    rewrite (has_id_exists i cards c Hc Hi). reflexivity.
Qed.

Section MoreMappingFacts.

Lemma is_materia_hunter_source (e : dict) :
  Store.is_materia_hunter e = true
  <-> find_key "source" e = Some (VStr "materia-hunter").
Proof.
  unfold Store.is_materia_hunter. split.
  - destruct (find_key "source" e) as [v|]; [destruct v|]; try discriminate.
    intros H. apply String.eqb_eq in H. rewrite H. reflexivity.
  - intros ->. reflexivity.
Qed.

(** The rule of the update: an entry of the preferred source is kept,
    any other card gets the entry of its own URLs. *)
Lemma spec_entry_fresh (existing_mapping : gmap string dict) (c : Store.card) :
  spec_entry existing_mapping c
  = match existing_mapping !! Store.id c with
    | Some e =>
        if Store.is_materia_hunter e then Some e
        else fresh_entry (resolved (Store.id c)) c
    | None => fresh_entry (resolved (Store.id c)) c
    end.
Proof.
  unfold spec_entry, fresh_entry.
  destruct (existing_mapping !! Store.id c) as [e|];
    [destruct (Store.is_materia_hunter e)|]; reflexivity.
Qed.

Lemma fresh_entry_source (secondary_url : option string) (c : Store.card) (e : dict) :
  fresh_entry secondary_url c = Some e ->
  match secondary_url with
  | Some _ => find_key "source" e = Some (VStr "materia-hunter")
  | None => find_key "source" e = Some (VStr "square-enix")
  end.
Proof.
  unfold fresh_entry. destruct secondary_url; [intros [= <-]; reflexivity|].
  destruct (Store.image c); [intros [= <-]; reflexivity | discriminate].
Qed.

Lemma fresh_entry_is_Some (secondary_url : option string) (c : Store.card) :
  is_Some secondary_url \/ is_Some (Store.image c) ->
  is_Some (fresh_entry secondary_url c).
Proof.
  unfold fresh_entry. intros [[url ->] | [img ->]]; [eauto|].
  destruct secondary_url; eauto.
Qed.

Lemma spec_entry_source (existing_mapping : gmap string dict) (c : Store.card)
    (e : dict) :
  spec_entry existing_mapping c = Some e ->
  find_key "source" e = Some (VStr "materia-hunter") \/
  (find_key "source" e = Some (VStr "square-enix") /\ resolved (Store.id c) = None).
Proof.
  rewrite spec_entry_fresh.
  assert (Hfresh : fresh_entry (resolved (Store.id c)) c = Some e ->
    find_key "source" e = Some (VStr "materia-hunter") \/
    (find_key "source" e = Some (VStr "square-enix") /\ resolved (Store.id c) = None)).
  { intros H. apply fresh_entry_source in H.
    destruct (resolved (Store.id c)); [left | right; split]; auto. }
  destruct (existing_mapping !! Store.id c) as [e0|]; [|exact Hfresh].
  destruct (Store.is_materia_hunter e0) eqn:Hmh; [|exact Hfresh].
  intros [= <-]. left. apply is_materia_hunter_source, Hmh.
Qed.

Lemma spec_entry_is_Some (existing_mapping : gmap string dict) (c : Store.card) :
  is_Some (resolved (Store.id c)) \/ is_Some (Store.image c) ->
  is_Some (spec_entry existing_mapping c).
Proof.
  intros H. rewrite spec_entry_fresh.
  destruct (existing_mapping !! Store.id c) as [e0|];
    [destruct (Store.is_materia_hunter e0); [eauto|]|];
    apply fresh_entry_is_Some, H.
Qed.

Lemma updated_lookup (existing_mapping : gmap string dict) (cards : list Store.card)
    (i : string) :
  foldl (add_entry existing_mapping) ∅ cards !! i
  = entry_after (spec_entry existing_mapping) i None cards.
Proof.
  change (add_entry existing_mapping) with (put_entry (spec_entry existing_mapping)).
  rewrite entries_lookup, lookup_empty. reflexivity.
Qed.

(** A kept entry is the entry of its id after the update. *)
Lemma updated_kept (existing_mapping : gmap string dict) (cards : list Store.card)
    (c : Store.card) (e : dict) :
  c ∈ cards ->
  existing_mapping !! Store.id c = Some e ->
  Store.is_materia_hunter e = true ->
  foldl (add_entry existing_mapping) ∅ cards !! Store.id c = Some e.
Proof.
  intros Hc He Hmh.
  rewrite updated_lookup, (entry_after_const _ (Store.id c) e),
    (has_id_exists _ cards c Hc eq_refl); [reflexivity|].
  intros c' _ Hid. rewrite spec_entry_fresh, Hid, He, Hmh. reflexivity.
Qed.

(** The update of an updated mapping changes nothing. *)
Lemma update_twice (existing_mapping : gmap string dict) (cards : list Store.card) :
  foldl (add_entry (foldl (add_entry existing_mapping) ∅ cards)) ∅ cards
  = foldl (add_entry existing_mapping) ∅ cards.
Proof.
  set (new1 := foldl (add_entry existing_mapping) ∅ cards).
  change (foldl (put_entry (spec_entry new1)) ∅ cards
          = foldl (put_entry (spec_entry existing_mapping)) ∅ cards).
  apply second_pass_same. intros i.
  change (foldl (put_entry (spec_entry existing_mapping)) ∅ cards) with new1.
  assert (Hfresh : forall c, c ∈ cards -> Store.id c = i ->
    match new1 !! i with
    | Some e => Store.is_materia_hunter e = false
    | None => True
    end ->
    spec_entry existing_mapping c = fresh_entry (resolved (Store.id c)) c).
  { intros c Hc Hid Hnew. rewrite spec_entry_fresh.
    destruct (existing_mapping !! Store.id c) as [e0|] eqn:Hex; [|reflexivity].
    destruct (Store.is_materia_hunter e0) eqn:Hmh; [|reflexivity].
    pose proof (updated_kept existing_mapping cards c e0 Hc Hex Hmh) as Hk.
    fold new1 in Hk. rewrite Hid in Hk. rewrite Hk in Hnew. congruence. }
  destruct (new1 !! i) as [e|] eqn:Hi.
  - destruct (Store.is_materia_hunter e) eqn:Hmh.
    + right. exists e. split; [reflexivity|].
      intros c _ Hid. rewrite spec_entry_fresh, Hid, Hi, Hmh. reflexivity.
    + left. intros c Hc Hid. rewrite (Hfresh c Hc Hid eq_refl).
      rewrite spec_entry_fresh, Hid, Hi, Hmh. reflexivity.
  - left. intros c Hc Hid. rewrite (Hfresh c Hc Hid I).
    rewrite spec_entry_fresh, Hid, Hi. reflexivity.
Qed.

Lemma update_without_cards (materia_hunter_url : string -> result (option string))
    (fs : Store.files) :
  Store.cards_file fs = None ->
  Store.update_image_mappings materia_hunter_url fs
  = (Store.Uncaught FileNotFoundError, fs).
Proof. intros H. unfold Store.update_image_mappings. rewrite H. reflexivity. Qed.

(** The sources of the entries of an updated mapping. *)
Lemma updated_sources (existing_mapping : gmap string dict) (cards : list Store.card)
    (i : string) (e : dict) :
  foldl (add_entry existing_mapping) ∅ cards !! i = Some e ->
  find_key "source" e = Some (VStr "materia-hunter") \/
  (find_key "source" e = Some (VStr "square-enix") /\ resolved i = None).
Proof.
  rewrite updated_lookup. intros H.
  apply entry_after_origin in H as [H | (c & _ & Hid & He)]; [discriminate|].
  rewrite <- Hid. exact (spec_entry_source existing_mapping c e He).
Qed.

End MoreMappingFacts.

(** X20.  The two scripts that update the image mapping do the same to
    the files, and a second update changes nothing: it ends as the first
    did and leaves the files the first left. *)
Theorem image_update_twice (fs : Store.files) :
  ManagerMain.update_image_mappings fs = UpdateImagesMain.main fs /\
  ManagerMain.update_image_mappings (ManagerMain.update_image_mappings fs).2
  = ManagerMain.update_image_mappings fs /\
  UpdateImagesMain.main (UpdateImagesMain.main fs).2 = UpdateImagesMain.main fs.
Proof.
  destruct (Store.cards_file fs) as [cards|] eqn:Hfile.
  - assert (Hrun : forall run,
      run = ManagerMain.update_image_mappings \/ run = UpdateImagesMain.main ->
      run (run fs).2 = run fs).
    { intros run Hrun.
      rewrite (image_runs_spec fs cards run Hrun Hfile). cbn [snd].
      rewrite (image_runs_spec (Store.write_mapping _ fs) cards run Hrun Hfile).
      change (default ∅ (Store.mapping_file (Store.write_mapping ?m fs))) with m.
      rewrite update_twice. reflexivity. }
    split; [|split].
    + rewrite (image_runs_spec fs cards _ (or_introl eq_refl) Hfile).
      rewrite (image_runs_spec fs cards _ (or_intror eq_refl) Hfile). reflexivity.
    + apply Hrun. left. reflexivity.
    + apply Hrun. right. reflexivity.
  - unfold ManagerMain.update_image_mappings, UpdateImagesMain.main.
    rewrite !(update_without_cards _ fs Hfile). cbn [snd].
    rewrite ?(update_without_cards _ fs Hfile). repeat split.
Qed.

(** X21.  After an update of the image mapping every entry has the
    source "materia-hunter" or "square-enix", and one of "square-enix"
    only under an id for which no secondary URL is derived.  Every card
    with a derived secondary URL or an image has an entry under its id,
    and a card with a derived secondary URL one of "materia-hunter". *)
Theorem updated_mapping_sources (fs : Store.files) (cards : list Store.card)
    (run : Store.files -> Store.outcome * Store.files) :
  run = ManagerMain.update_image_mappings \/ run = UpdateImagesMain.main ->
  Store.cards_file fs = Some cards ->
  exists new_mappings,
    run fs = (Store.Returned, Store.write_mapping new_mappings fs) /\
    (forall i e,
       new_mappings !! i = Some e ->
       find_key "source" e = Some (VStr "materia-hunter") \/
       (find_key "source" e = Some (VStr "square-enix") /\ resolved i = None)) /\
    (forall c,
       c ∈ cards ->
       is_Some (resolved (Store.id c)) \/ is_Some (Store.image c) ->
       is_Some (new_mappings !! Store.id c)) /\
    (forall c,
       c ∈ cards ->
       is_Some (resolved (Store.id c)) ->
       exists e, new_mappings !! Store.id c = Some e /\
                 Store.is_materia_hunter e = true).
Proof.
  intros Hrun Hfile. eexists. split; [apply (image_runs_spec fs cards run Hrun Hfile)|].
  set (existing_mapping := default ∅ (Store.mapping_file fs)).
  pose proof (updated_sources existing_mapping cards) as Hsource.
  assert (Hentry : forall c,
    c ∈ cards ->
    is_Some (resolved (Store.id c)) \/ is_Some (Store.image c) ->
    is_Some (foldl (add_entry existing_mapping) ∅ cards !! Store.id c)).
  { intros c Hc H. rewrite updated_lookup. apply entry_after_is_Some. right.
    exists c. split; [exact Hc|]. split; [reflexivity|].
    apply spec_entry_is_Some, H. }
  split; [exact Hsource|]. split; [exact Hentry|].
  intros c Hc Hurl. destruct (Hentry c Hc (or_introl Hurl)) as [e He].
  exists e. split; [exact He|]. apply is_materia_hunter_source.
  destruct (Hsource _ e He) as [H | [_ H]]; [exact H|].
  rewrite H in Hurl. destruct Hurl as [url Hurl]. discriminate Hurl.
Qed.

Lemma updated_mapping_sources_witness :
  exists new_mappings,
    ManagerMain.update_image_mappings sample_files
    = (Store.Returned, Store.write_mapping new_mappings sample_files) /\
    (forall i e,
       new_mappings !! i = Some e ->
       find_key "source" e = Some (VStr "materia-hunter") \/
       (find_key "source" e = Some (VStr "square-enix") /\ resolved i = None)) /\
    (forall c,
       c ∈ sample_cards ->
       is_Some (resolved (Store.id c)) \/ is_Some (Store.image c) ->
       is_Some (new_mappings !! Store.id c)) /\
    (forall c,
       c ∈ sample_cards ->
       is_Some (resolved (Store.id c)) ->
       exists e, new_mappings !! Store.id c = Some e /\
                 Store.is_materia_hunter e = true).
Proof.
  exact (updated_mapping_sources sample_files sample_cards
           ManagerMain.update_image_mappings (or_introl eq_refl) eq_refl).
Defined.

(** ** The counts by set of update_image_mapping.py *)

Lemma count_cards_cons (new_mappings : gmap string dict) (s tag : string)
    (c : Store.card) (cards : list Store.card) :
  count_cards new_mappings s tag (c :: cards)
  = (if bool_decide (Store.set c = s /\ card_source new_mappings c = Some tag)
     then 1 else 0)
    + count_cards new_mappings s tag cards.
Proof.
  unfold count_cards. rewrite filter_cons. destruct (decide _) as [H|H].
  - rewrite (bool_decide_eq_true_2 _ H). simpl length. lia.
  - rewrite (bool_decide_eq_false_2 _ H). lia.
Qed.

Section ReportFacts.

Variable new_mappings : gmap string dict.

Hypothesis sources :
  forall i e,
    new_mappings !! i = Some e ->
    find_key "source" e = Some (VStr "materia-hunter") \/
    find_key "source" e = Some (VStr "square-enix").

#[local] Abbreviation counts_of m s := (default (0, 0) (m !! s) : Z * Z).

#[local] Abbreviation counted s tag c :=
  (if bool_decide (Store.set c = s /\ card_source new_mappings c = Some tag)
   then 1 else 0).

Lemma report_step_spec (set_sources : gmap string (Z * Z)) (c : Store.card) :
  exists set_sources',
    UpdateImagesReport.report_step new_mappings set_sources c = Ok set_sources' /\
    forall s,
      counts_of set_sources' s
      = ((counts_of set_sources s).1 + counted s "materia-hunter" c,
         (counts_of set_sources s).2 + counted s "square-enix" c) /\
      (is_Some (set_sources' !! s)
       <-> is_Some (set_sources !! s) \/
           (Store.set c = s /\ is_Some (new_mappings !! Store.id c))).
Proof.
  unfold UpdateImagesReport.report_step, card_source.
  destruct (new_mappings !! Store.id c) as [e|] eqn:He.
  - assert (Hstep : forall tag (d1 d2 : Z),
      find_key "source" e = Some (VStr tag) ->
      UpdateImagesReport.count_source (counts_of set_sources (Store.set c)) (VStr tag)
      = Ok ((counts_of set_sources (Store.set c)).1 + d1,
            (counts_of set_sources (Store.set c)).2 + d2) ->
      d1 = (if bool_decide (tag = "materia-hunter") then 1 else 0) ->
      d2 = (if bool_decide (tag = "square-enix") then 1 else 0) ->
      exists set_sources',
        (source <- getitem e "source" ;;
         counts <- UpdateImagesReport.count_source
                     (counts_of set_sources (Store.set c)) source ;;
         Ok (<[Store.set c := counts]> set_sources)) = Ok set_sources' /\
        forall s,
          counts_of set_sources' s
          = ((counts_of set_sources s).1
             + (if bool_decide (Store.set c = s /\
                                match find_key "source" e with
                                | Some (VStr s0) => Some s0
                                | _ => None
                                end = Some "materia-hunter") then 1 else 0),
             (counts_of set_sources s).2
             + (if bool_decide (Store.set c = s /\
                                match find_key "source" e with
                                | Some (VStr s0) => Some s0
                                | _ => None
                                end = Some "square-enix") then 1 else 0)) /\
          (is_Some (set_sources' !! s)
           <-> is_Some (set_sources !! s) \/ (Store.set c = s /\ is_Some (Some e)))).
    { intros tag d1 d2 Hs Hc Hd1 Hd2. unfold getitem. rewrite Hs. cbn [bind].
      rewrite Hc. cbn [bind]. eexists. split; [reflexivity|].
      intros s. destruct (decide (Store.set c = s)) as [<-|N].
      - rewrite lookup_insert_eq. cbn [default]. split.
        + assert (Htag : forall t : string,
            bool_decide (tag = t)
            = bool_decide (Store.set c = Store.set c /\ Some tag = Some t)).
          { intros t. apply bool_decide_ext. split.
            - intros ->. split; reflexivity.
            - intros [_ [= ->]]. reflexivity. }
          rewrite Hd1, Hd2, !Htag. reflexivity.
        + split; [intros _; right; eauto | eauto].
      - rewrite lookup_insert_ne by exact N. split.
        + rewrite !bool_decide_eq_false_2 by (intros [E _]; exact (N E)).
          destruct (counts_of set_sources s) as [x y]. cbn [fst snd]. f_equal; lia.
        + split; [left; assumption | intros [H | [E _]]; [exact H | exact (False_ind _ (N E))]]. }
    destruct (sources _ e He) as [Hs | Hs].
    + apply (Hstep "materia-hunter" 1 0 Hs);
        [unfold UpdateImagesReport.count_source; cbn; f_equal; f_equal; lia
        | reflexivity | reflexivity].
    + apply (Hstep "square-enix" 0 1 Hs);
        [unfold UpdateImagesReport.count_source; cbn; f_equal; f_equal; lia
        | reflexivity | reflexivity].
  - eexists. split; [reflexivity|]. intros s. split.
    + rewrite !bool_decide_eq_false_2 by (intros [_ E]; discriminate E).
      destruct (counts_of set_sources s) as [x y]. cbn [fst snd]. f_equal; lia.
    + split; [left; assumption | intros [H | [_ [x E]]]; [exact H | discriminate E]].
Qed.

(** The loop of the counts goes through, and counts for every set the
    cards whose entry has the one source and the other. *)
Lemma report_loop_spec (cards : list Store.card) (set_sources : gmap string (Z * Z)) :
  exists result_sources,
    UpdateImagesReport.report_loop new_mappings set_sources cards = Ok result_sources /\
    forall s,
      counts_of result_sources s
      = ((counts_of set_sources s).1 + count_cards new_mappings s "materia-hunter" cards,
         (counts_of set_sources s).2 + count_cards new_mappings s "square-enix" cards) /\
      (is_Some (result_sources !! s)
       <-> is_Some (set_sources !! s) \/
           exists c, c ∈ cards /\ Store.set c = s /\
                     is_Some (new_mappings !! Store.id c)).
Proof.
  revert set_sources. induction cards as [|c cards IH]; intros set_sources.
  - exists set_sources. split; [reflexivity|]. intros s. split.
    + unfold count_cards. simpl.
      destruct (counts_of set_sources s) as [x y]. cbn [fst snd]. f_equal; lia.
    + split; [left; assumption | intros [H | (c & Hc & _)]; [exact H|]].
      apply elem_of_nil in Hc. contradiction.
  - destruct (report_step_spec set_sources c) as (set_sources' & Hstep & Hs').
    destruct (IH set_sources') as (r & Hloop & Hr).
    exists r. split; [simpl; rewrite Hstep; exact Hloop|].
    intros s. destruct (Hr s) as [Hcount Hkey]. destruct (Hs' s) as [Hcount' Hkey'].
    split.
    + rewrite Hcount, Hcount', !count_cards_cons. cbn [fst snd]. f_equal; lia.
    + rewrite Hkey, Hkey'. split.
      * intros [[H | [Hset He]] | (c' & Hc' & Hset & He)].
        -- left. exact H.
        -- right. exists c. split; [apply list_elem_of_here | split; assumption].
        -- right. exists c'. split; [apply list_elem_of_further, Hc' | split; assumption].
      * intros [H | (c' & Hc' & Hset & He)]; [left; left; exact H|].
        apply elem_of_cons in Hc' as [-> | Hc'].
        -- left. right. split; assumption.
        -- right. exists c'. split; [exact Hc' | split; assumption].
Qed.

End ReportFacts.

Lemma report_main_spec (fs : Store.files) (cards : list Store.card) :
  Store.cards_file fs = Some cards ->
  exists result_sources,
    UpdateImagesReport.report_loop
      (foldl (add_entry (default ∅ (Store.mapping_file fs))) ∅ cards) ∅ cards
    = Ok result_sources /\
    UpdateImagesReport.main fs
    = (Store.Returned,
       Store.write_mapping
         (foldl (add_entry (default ∅ (Store.mapping_file fs))) ∅ cards) fs) /\
    forall s,
      default (0, 0) (result_sources !! s)
      = (count_cards (foldl (add_entry (default ∅ (Store.mapping_file fs))) ∅ cards)
           s "materia-hunter" cards,
         count_cards (foldl (add_entry (default ∅ (Store.mapping_file fs))) ∅ cards)
           s "square-enix" cards) /\
      (is_Some (result_sources !! s)
       <-> exists c, c ∈ cards /\ Store.set c = s /\
                     is_Some (foldl (add_entry (default ∅ (Store.mapping_file fs))) ∅ cards
                              !! Store.id c)).
Proof.
  intros Hfile.
  set (new_mappings := foldl (add_entry (default ∅ (Store.mapping_file fs))) ∅ cards).
  assert (Hsources : forall i e,
    new_mappings !! i = Some e ->
    find_key "source" e = Some (VStr "materia-hunter") \/
    find_key "source" e = Some (VStr "square-enix")).
  { intros i e H. destruct (updated_sources _ _ _ _ H) as [Hs | [Hs _]]; auto. }
  destruct (report_loop_spec new_mappings Hsources cards ∅) as (r & Hloop & Hr).
  exists r. split; [exact Hloop|]. split.
  - unfold UpdateImagesReport.main. rewrite Hfile.
    rewrite (mapping_loop_spec _ generate_materia_hunter_url_resolved).
    fold new_mappings. rewrite Hloop. reflexivity.
  - intros s. destruct (Hr s) as [Hcount Hkey]. split.
    + rewrite Hcount, lookup_empty. cbn [default fst snd]. f_equal; lia.
    + rewrite Hkey, lookup_empty. split.
      * intros [[x H] | H]; [discriminate H | exact H].
      * intros H. right. exact H.
Qed.

(** X22.  The counts by set that update_image_mapping.py prints after
    it has written the mapping never raise: with them the run ends as
    the update alone does, and leaves the same files. *)
Theorem report_never_fails (fs : Store.files) :
  UpdateImagesReport.main fs = UpdateImagesMain.main fs.
Proof.
  destruct (Store.cards_file fs) as [cards|] eqn:Hfile.
  - destruct (report_main_spec fs cards Hfile) as (r & _ & -> & _).
    symmetry. apply (image_runs_spec fs cards); [right; reflexivity | exact Hfile].
  - unfold UpdateImagesReport.main, UpdateImagesMain.main.
    rewrite (update_without_cards _ fs Hfile), Hfile. reflexivity.
Qed.

(** X23.  When the card file is there, the counts of
    update_image_mapping.py have an item for exactly the sets of the
    cards with an entry in the new mapping, and that item holds the
    number of the cards of the set whose entry has the source
    "materia-hunter" and the number of those whose entry has the source
    "square-enix". *)
Theorem report_counts (fs : Store.files) (cards : list Store.card) :
  Store.cards_file fs = Some cards ->
  exists new_mappings set_sources,
    UpdateImagesReport.main fs
    = (Store.Returned, Store.write_mapping new_mappings fs) /\
    UpdateImagesReport.report_loop new_mappings ∅ cards = Ok set_sources /\
    forall s,
      default (0, 0) (set_sources !! s)
      = (count_cards new_mappings s "materia-hunter" cards,
         count_cards new_mappings s "square-enix" cards) /\
      (is_Some (set_sources !! s)
       <-> exists c, c ∈ cards /\ Store.set c = s /\
                     is_Some (new_mappings !! Store.id c)).
Proof.
  intros Hfile. destruct (report_main_spec fs cards Hfile) as (r & Hloop & Hmain & Hr).
  eexists. exists r. split; [exact Hmain|]. split; [exact Hloop | exact Hr].
Qed.

Lemma report_counts_witness :
  exists new_mappings set_sources,
    UpdateImagesReport.main sample_files
    = (Store.Returned, Store.write_mapping new_mappings sample_files) /\
    UpdateImagesReport.report_loop new_mappings ∅ sample_cards = Ok set_sources /\
    forall s,
      default (0, 0) (set_sources !! s)
      = (count_cards new_mappings s "materia-hunter" sample_cards,
         count_cards new_mappings s "square-enix" sample_cards) /\
      (is_Some (set_sources !! s)
       <-> exists c, c ∈ sample_cards /\ Store.set c = s /\
                     is_Some (new_mappings !! Store.id c)).
Proof.
  exact (report_counts sample_files sample_cards eq_refl).
Defined.

(** ** The command line of fftcg_database_manager.py *)



(** ** The run of generate_materia_hunter_mapping.py *)

Section GeneratorFacts.

(** The generator returns for every id, and no empty URL. *)
Lemma generate_url_cases (card_id : string) :
  exists r,
    GenerateMapping.generate_materia_hunter_url card_id = Ok r /\
    forall url, r = Some url -> String.eqb url "" = false.
Proof.
  assert (Hurl : forall opus_dir url,
    UpdateImages.generate_url_in opus_dir card_id = Some url ->
    String.eqb url "" = false).
  { intros opus_dir url. unfold UpdateImages.generate_url_in.
    destruct opus_dir as [d|]; [|discriminate].
    destruct (String.eqb d ""); [discriminate|]. intros [= <-]. reflexivity. }
  unfold GenerateMapping.generate_materia_hunter_url,
    GenerateMapping.get_materia_hunter_opus_directory.
  destruct (is_prefix "B-" card_id); [eexists; split; [reflexivity | apply Hurl]|].
  destruct (is_prefix "PR-" card_id); [eexists; split; [reflexivity | apply Hurl]|].
  destruct (opus_match card_id) as [ds|] eqn:Hm;
    [|eexists; split; [reflexivity | apply Hurl]].
  destruct (opus_match_inv _ _ Hm) as [Hds _].
  rewrite (int_of_digits ds Hds). eexists; split; [reflexivity | apply Hurl].
Qed.

Lemma generator_step_spec (existing_mapping new_mappings : gmap string dict)
    (c : Store.card) :
  GenerateMappingMain.mapping_step existing_mapping new_mappings c
  = Ok (put_entry (generator_entry existing_mapping) new_mappings c).
Proof.
  unfold GenerateMappingMain.mapping_step, put_entry, generator_entry.
  destruct (existing_mapping !! Store.id c) as [e|]; [reflexivity|].
  unfold Store.resolve_entry, generated, fresh_entry.
  destruct (generate_url_cases (Store.id c)) as (r & -> & Hr). cbn [bind ok_value default].
  destruct r as [url|].
  - rewrite (Hr url eq_refl). reflexivity.
  - destruct (Store.image c); reflexivity.
Qed.

Lemma generator_loop_spec (existing_mapping new_mappings : gmap string dict)
    (cards : list Store.card) :
  GenerateMappingMain.mapping_loop existing_mapping new_mappings cards
  = Ok (foldl (put_entry (generator_entry existing_mapping)) new_mappings cards).
Proof.
  revert new_mappings. induction cards as [|c cards IH]; intros new_mappings; simpl.
  - reflexivity.
  - rewrite generator_step_spec. cbn [bind]. apply IH.
Qed.

(** An entry of the persisted mapping under the id of a card is the
    entry of that id after the run. *)
Lemma generator_kept (existing_mapping : gmap string dict) (cards : list Store.card)
    (c : Store.card) (e : dict) :
  c ∈ cards ->
  existing_mapping !! Store.id c = Some e ->
  foldl (put_entry (generator_entry existing_mapping)) ∅ cards !! Store.id c = Some e.
Proof.
  intros Hc He.
  rewrite entries_lookup, lookup_empty, (entry_after_const _ (Store.id c) e),
    (has_id_exists _ cards c Hc eq_refl); [reflexivity|].
  intros c' _ Hid. unfold generator_entry. rewrite Hid, He. reflexivity.
Qed.

Lemma generator_twice (existing_mapping : gmap string dict) (cards : list Store.card) :
  foldl (put_entry
           (generator_entry
              (foldl (put_entry (generator_entry existing_mapping)) ∅ cards))) ∅ cards
  = foldl (put_entry (generator_entry existing_mapping)) ∅ cards.
Proof.
  set (new1 := foldl (put_entry (generator_entry existing_mapping)) ∅ cards).
  apply second_pass_same. intros i. fold new1.
  destruct (new1 !! i) as [e|] eqn:Hi.
  - right. exists e. split; [reflexivity|].
    intros c _ Hid. unfold generator_entry. rewrite Hid, Hi. reflexivity.
  - left. intros c Hc Hid. unfold generator_entry. rewrite Hid, Hi.
    destruct (existing_mapping !! i) as [e0|] eqn:Hex; [|reflexivity].
    rewrite <- Hid in Hex. pose proof (generator_kept _ cards c e0 Hc Hex) as Hk.
    fold new1 in Hk. rewrite Hid in Hk. congruence.
Qed.

(** Where the entries of the new mapping come from. *)
Lemma generator_origin (existing_mapping : gmap string dict) (cards : list Store.card)
    (i : string) (e : dict) :
  foldl (put_entry (generator_entry existing_mapping)) ∅ cards !! i = Some e ->
  i ∈ Store.id <$> cards /\
  (existing_mapping !! i = Some e \/
   (existing_mapping !! i = None /\
    exists s, find_key "source" e = Some (VStr s))).
Proof.
  rewrite entries_lookup, lookup_empty. intros H.
  apply entry_after_origin in H as [H | (c & Hc & Hid & He)]; [discriminate|].
  split; [rewrite <- Hid; apply list_elem_of_fmap_2, Hc|].
  unfold generator_entry in He. rewrite Hid in He.
  destruct (existing_mapping !! i) as [e0|]; [left; exact He|].
  right. split; [reflexivity|]. apply fresh_entry_source in He.
  destruct (generated i); eauto.
Qed.

Lemma generator_main_spec (fs : Store.files) (cards : list Store.card) :
  Store.cards_file fs = Some cards ->
  GenerateMappingMain.main fs
  = (if GenerateMappingMain.breakdown_goes_through
          (foldl (put_entry (generator_entry (default ∅ (Store.mapping_file fs)))) ∅ cards)
     then Store.Returned else Store.Uncaught TypeError,
     Store.write_mapping
       (foldl (put_entry (generator_entry (default ∅ (Store.mapping_file fs)))) ∅ cards)
       fs).
Proof.
  intros Hfile. unfold GenerateMappingMain.main.
  rewrite Hfile, generator_loop_spec.
  destruct (GenerateMappingMain.breakdown_goes_through _); reflexivity.
Qed.

End GeneratorFacts.

(** X25.  A second run of generate_materia_hunter_mapping.py changes
    nothing: it ends as the first did and leaves the files the first
    left. *)
Theorem generator_run_twice (fs : Store.files) :
  GenerateMappingMain.main (GenerateMappingMain.main fs).2
  = GenerateMappingMain.main fs.
Proof.
  destruct (Store.cards_file fs) as [cards|] eqn:Hfile.
  - rewrite (generator_main_spec fs cards Hfile). cbn [snd].
    rewrite (generator_main_spec (Store.write_mapping _ fs) cards Hfile).
    change (default ∅ (Store.mapping_file (Store.write_mapping ?m fs))) with m.
    rewrite generator_twice. reflexivity.
  - unfold GenerateMappingMain.main. rewrite Hfile. cbn [snd]. rewrite Hfile.
    reflexivity.
Qed.

(** X26.  When the card file is there, generate_materia_hunter_mapping.py
    writes a mapping whose keys are ids of cards and which holds, under
    the id of every card, the entry the persisted mapping has for it,
    whatever its source; an entry under any other id of a card is new and
    has a string as source.  The run returns when the source of every
    kept entry can be the key of a dictionary, and ends in TypeError,
    the mapping written, when one cannot. *)
Theorem generator_keeps_entries (fs : Store.files) (cards : list Store.card) :
  Store.cards_file fs = Some cards ->
  exists new_mappings,
    (GenerateMappingMain.main fs).2 = Store.write_mapping new_mappings fs /\
    (forall c e,
       c ∈ cards ->
       default ∅ (Store.mapping_file fs) !! Store.id c = Some e ->
       new_mappings !! Store.id c = Some e) /\
    (forall i e,
       new_mappings !! i = Some e ->
       i ∈ Store.id <$> cards /\
       (default ∅ (Store.mapping_file fs) !! i = Some e \/
        (default ∅ (Store.mapping_file fs) !! i = None /\
         exists s, find_key "source" e = Some (VStr s)))) /\
    ((forall c e,
        c ∈ cards ->
        default ∅ (Store.mapping_file fs) !! Store.id c = Some e ->
        GenerateMappingMain.hashable (get e "source" (VStr "unknown")) = true) ->
     (GenerateMappingMain.main fs).1 = Store.Returned) /\
    (forall c e,
       c ∈ cards ->
       default ∅ (Store.mapping_file fs) !! Store.id c = Some e ->
       GenerateMappingMain.hashable (get e "source" (VStr "unknown")) = false ->
       (GenerateMappingMain.main fs).1 = Store.Uncaught TypeError).
Proof.
  intros Hfile. eexists. rewrite (generator_main_spec fs cards Hfile).
  split; [reflexivity|].
  set (existing_mapping := default ∅ (Store.mapping_file fs)).
  set (new_mappings := foldl (put_entry (generator_entry existing_mapping)) ∅ cards).
  split; [intros c e Hc He; exact (generator_kept _ cards c e Hc He)|].
  split; [intros i e; apply generator_origin|].
  cbn [fst]. unfold GenerateMappingMain.breakdown_goes_through. split.
  - intros Hall. rewrite bool_decide_eq_true_2; [reflexivity|].
    intros i e Hi. destruct (generator_origin _ _ _ _ Hi) as [Hin [He | [_ [s Hs]]]].
    + apply list_elem_of_fmap in Hin as (c & -> & Hc). exact (Hall c e Hc He).
    + unfold get. rewrite Hs. reflexivity.
  - intros c e Hc He Hhash. rewrite bool_decide_eq_false_2; [reflexivity|].
    intros Hall. pose proof (Hall _ _ (generator_kept _ cards c e Hc He)) as H.
    simpl in H. congruence.
Qed.

Lemma generator_keeps_entries_witness :
  exists new_mappings,
    (GenerateMappingMain.main sample_files).2
    = Store.write_mapping new_mappings sample_files /\
    (forall c e,
       c ∈ sample_cards ->
       default ∅ (Store.mapping_file sample_files) !! Store.id c = Some e ->
       new_mappings !! Store.id c = Some e) /\
    (forall i e,
       new_mappings !! i = Some e ->
       i ∈ Store.id <$> sample_cards /\
       (default ∅ (Store.mapping_file sample_files) !! i = Some e \/
        (default ∅ (Store.mapping_file sample_files) !! i = None /\
         exists s, find_key "source" e = Some (VStr s)))) /\
    ((forall c e,
        c ∈ sample_cards ->
        default ∅ (Store.mapping_file sample_files) !! Store.id c = Some e ->
        GenerateMappingMain.hashable (get e "source" (VStr "unknown")) = true) ->
     (GenerateMappingMain.main sample_files).1 = Store.Returned) /\
    (forall c e,
       c ∈ sample_cards ->
       default ∅ (Store.mapping_file sample_files) !! Store.id c = Some e ->
       GenerateMappingMain.hashable (get e "source" (VStr "unknown")) = false ->
       (GenerateMappingMain.main sample_files).1 = Store.Uncaught TypeError).
Proof.
  exact (generator_keeps_entries sample_files sample_cards eq_refl).
Defined.
